(** * NumeriCal: the parser and the evaluator, embedded and checked against
      the statements of the specification.

    The development follows the two source files:
    - [lexer] : the token record and the token, node and object tags
      (src/lexer/token.go, first part);
    - [parser] : the Pratt parser (package parser);
    - [evaluator] : the tree-walking evaluator (package evaluator, second part
      of src/lexer/token.go).

    Go's [float64] is modelled by the IEEE-754 binary64 instance of the
    Standard Library's [SpecFloat]; Go's [int] by [Z] with 64-bit wrap-around;
    Go maps by stdpp's [gmap]; [(Object, error)] returns by a small
    state-and-error monad whose state is the environment (Go maps are
    references, so writes through a by-value [Environment] are visible to the
    caller). *)

From Stdlib Require Import ZArith Lia String Ascii List.
From Stdlib Require Import SpecFloat.
From stdpp Require Import base strings gmap list.

Set Warnings "-register-all,-non-full-mutual".

Open Scope string_scope.
Open Scope Z_scope.

(* ===================================================================== *)
(** ** Machine numbers *)
(* ===================================================================== *)

(** Go [int] on a 64-bit target: two's complement wrap-around. *)
Module int64.
Definition min : Z := - 2 ^ 63.
Definition max : Z := 2 ^ 63 - 1.
Definition wrap (z : Z) : Z := (z + 2 ^ 63) mod 2 ^ 64 - 2 ^ 63.
Definition in_range (z : Z) : bool := (min <=? z) && (z <=? max).
Definition neg (z : Z) : Z := wrap (- z).
End int64.

(** Go [float64]: binary64, precision 53, infinities at exponent 1024. *)
Module float64.
Definition prec : Z := 53.
Definition emax : Z := 1024.
Abbreviation t := spec_float.

Definition valid (f : t) : bool := valid_binary prec emax f.

Definition add : t -> t -> t := SFadd prec emax.
Definition sub : t -> t -> t := SFsub prec emax.
Definition mul : t -> t -> t := SFmul prec emax.
Definition div : t -> t -> t := SFdiv prec emax.
Definition neg : t -> t := SFopp.
Definition eqb : t -> t -> bool := SFeqb.
Definition ltb : t -> t -> bool := SFltb.
Definition leb : t -> t -> bool := SFleb.
  (** Go's [!=], [>] and [>=] on floats; [!=] is the negation of [==]
      (true on NaN), the orderings are false on NaN. *)
Definition neb (a b : t) : bool := negb (eqb a b).
Definition gtb (a b : t) : bool := ltb b a.
Definition geb (a b : t) : bool := leb b a.

  (** [float64(i)] for an integer [i]: round to nearest, ties to even. *)
Definition of_int (z : Z) : t := binary_normalize prec emax z 0 false.

  (** The integer part of a finite float, towards zero. *)
Definition trunc (f : t) : Z :=
    match f with
    | S754_finite s m e =>
        cond_Zopp s (match e with
                     | Z0 => Zpos m
                     | Zpos p => Z.shiftl (Zpos m) e
                     | Zneg p => Z.shiftr (Zpos m) (Zpos p)
                     end)
    | _ => 0
    end.

  (** [int(f)].  The Go specification leaves the result of converting a NaN,
      an infinity or a value outside the range of [int] implementation
      dependent; the gc compiler on amd64 yields the smallest [int]. *)
Definition to_int (f : t) : Z :=
    match f with
    | S754_zero _ => 0
    | S754_finite _ _ _ =>
        if int64.in_range (trunc f) then trunc f else int64.min
    | _ => int64.min
    end.

  (** [math.Round]: nearest integer, halves away from zero; zeros,
      infinities and NaN are returned as they are, and the sign of a result
      that rounds to zero is kept. *)
Definition Round (f : t) : t :=
    match f with
    | S754_finite s m (Zneg p) =>
        let q := Z.shiftr (Zpos m) (Zpos p) in
        let r := Z.land (Zpos m) (Z.ones (Zpos p)) in
        let q' := if Z.shiftl 1 (Zpos p) <=? 2 * r then q + 1 else q in
        if q' =? 0 then S754_zero s
        else binary_normalize prec emax (cond_Zopp s q') 0 s
    | _ => f
    end.

Definition zero : t := S754_zero false.
Definition one : t := Eval vm_compute in of_int 1.
Definition half : t := Eval vm_compute in div (of_int 1) (of_int 2).
End float64.

Abbreviation float64 := spec_float (only parsing).


(* ===================================================================== *)
(** ** package lexer: tokens and tags (src/lexer/token.go) *)
(* ===================================================================== *)

Module lexer.

  (** [Type] is a keyword of Rocq: the field is [Type_]. *)
Record Token := { Type_ : string; Literal : string }.

Definition NewToken (tokenType : string) (ch : ascii) : Token :=
    {| Type_ := tokenType; Literal := String ch EmptyString |}.

Definition ERROR := "ERROR".
Definition NIL := "NIL".
Definition EOF := "EOF".

Definition INT := "INT".
Definition STRING := "STRING".
Definition FLOAT := "FLOAT".
Definition IDENTIFIER := "IDENTIFIER".
Definition UNIT := "UNIT".

Definition EQ := "EQ".
Definition EE := "EE".
Definition NE := "NE".
Definition LT := "LT".
Definition LTE := "LTE".
Definition GT := "GT".
Definition GTE := "GTE".

Definition ADD := "ADD".
Definition SUB := "SUB".
Definition DIV := "DIV".
Definition MUL := "MUL".
Definition POW := "POW".
Definition MOD := "MOD".
Definition NOT := "NOT".

Definition LPAREN := "LPAREN".
Definition RPAREN := "RPAREN".
Definition LSQUARE := "LSQUARE".
Definition RSQUARE := "RSQUARE".
Definition LBRACE := "LBRACE".
Definition RBRACE := "RBRACE".

Definition SEMICOLON := "SEMICOLON".
Definition COMMA := "COMMA".
Definition ARROW := "ARROW".
Definition TILDE := "TILDE".

Definition IN := "IN".
Definition DEFINE := "DEFINE".

Definition PROGRAM_NODE := "PROGRAM_NODE".
Definition IDENTIFIER_NODE := "IDENTIFIER_NODE".
Definition INT_NODE := "INT_NODE".
Definition STRING_NODE := "STRING_NODE".
Definition FLOAT_NODE := "FLOAT_NODE".
Definition UNIT_NODE := "UNIT_NODE".
Definition BIN_OP_NODE := "BIN_OP_NODE".
Definition UNARY_OP_NODE := "UNARY_OP_NODE".
Definition FUNCTION_CALL_NODE := "FUNCTION_CALL_NODE".
Definition ARRAY_NODE := "ARRAY_NODE".
Definition ASSIGN_NODE := "ASSIGN_NODE".
Definition FUNCTION_DEFENITION_NODE := "FUNCTION_DEFENITION_NODE".

Definition INT_OBJ := "INT_OBJ".
Definition FLOAT_OBJ := "FLOAT_OBJ".
Definition IDENTIFIER_OBJ := "IDENTIFIER_OBJ".
Definition UNIT_OBJ := "UNIT_OBJ".
Definition ARRAY_OBJ := "ARRAY_OBJ".
Definition FUNCTION_CALL_OBJ := "FUNCTION_CALL_OBJ".
Definition STRING_OBJ := "STRING_OBJ".
Definition PROGRAM_OBJ := "PROGRAM_OBJ".
Definition BIN_OP_OBJ := "BIN_OP_OBJ".
Definition UNARY_OP_OBJ := "UNARY_OP_OBJ".
Definition ASSIGN_OBJ := "ASSIGN_OBJ".
Definition FUNCTION_DEFENITION_OBJ := "FUNCTION_DEFENITION_OBJ".

Definition keywords : gmap string string :=
    <["in" := IN]> (<["define" := DEFINE]> (<["per" := DIV]> ∅)).

  (** [(string, error)]: [inr] carries the error message. *)
Definition lookupIdentifier (identifier : string) : string + string :=
    if (String.length identifier =? 0)%nat then
      inr "LexerError: lookupIdentifier() identifier StringLength must be greater than 0"
    else
      match keywords !! identifier with
      | Some token => inl token
      | None => inl IDENTIFIER
      end.

End lexer.

(* ===================================================================== *)
(** ** Results and state *)
(* ===================================================================== *)

(** What a Go call that returns [(T, error)] can do: return a value with a
    nil error, return a non-nil error (the message of [errors.New]), or
    panic at run time.  [OutOfFuel] belongs to the embedding only: the
    recursive functions below are defined by recursion on a step budget. *)
Inductive result (A : Type) : Type :=
| Ok (a : A)
| Err (e : string)
| Panic (why : string)
| OutOfFuel.
Arguments Ok {A} a.
Arguments Err {A} e.
Arguments Panic {A} why.
Arguments OutOfFuel {A}.

(** A computation over a mutable state [S]; the state survives errors, as
    the writes of the Go code do. *)
Definition M (S A : Type) : Type := S -> result A * S.

Definition ret {S A} (a : A) : M S A := fun s => (Ok a, s).
Definition fail {S A} (e : string) : M S A := fun s => (Err e, s).
Definition panic {S A} (why : string) : M S A := fun s => (Panic why, s).
Definition bind {S A B} (m : M S A) (k : A -> M S B) : M S B :=
  fun s =>
    match m s with
    | (Ok a, s') => k a s'
    | (Err e, s') => (Err e, s')
    | (Panic w, s') => (Panic w, s')
    | (OutOfFuel, s') => (OutOfFuel, s')
    end.
Definition getState {S} : M S S := fun s => (Ok s, s).
Definition putState {S} (s : S) : M S unit := fun _ => (Ok tt, s).

Declare Scope go_scope.
Delimit Scope go_scope with go.
Notation "x <- m ;; k" := (bind m (fun x => k))
  (at level 100, m at level 99, k at level 200, right associativity) : go_scope.
Notation "'do' m ;; k" := (bind m (fun _ => k))
  (at level 100, m at level 99, k at level 200, right associativity) : go_scope.
Open Scope go_scope.

(** The run-time panics of the operations used below. *)
Definition index_out_of_range := "runtime error: index out of range".
Definition nil_dereference := "runtime error: invalid memory address or nil pointer dereference".
Definition interface_conversion := "interface conversion".
Definition integer_divide_by_zero := "runtime error: integer divide by zero".

(** Go's [==] on strings. *)
Notation "a == b" := (String.eqb a b) (at level 70, no associativity) : go_scope.

(** [if err != nil { ... }] with a continuation that does not propagate the
    error: the error becomes a value. *)
Definition catch {S A} (m : M S A) : M S (A + string) :=
  fun s =>
    match m s with
    | (Ok a, s') => (Ok (inl a), s')
    | (Err e, s') => (Ok (inr e), s')
    | (Panic w, s') => (Panic w, s')
    | (OutOfFuel, s') => (OutOfFuel, s')
    end.

Definition lift {S A} (r : result A) : M S A := fun s => (r, s).

(** [m'] answers as [m] does wherever [m] answers within its budget. *)
Definition refines {S A} (m m' : M S A) : Prop :=
  forall s r s', m s = (r, s') -> r <> OutOfFuel -> m' s = (r, s').

(* ===================================================================== *)
(** ** package strconv (Go standard library) *)
(* ===================================================================== *)

Module strconv.

Definition quote : string := String (ascii_of_nat 34) EmptyString.

Definition syntax_error (fn s : string) : string :=
    "strconv." ++ fn ++ ": parsing " ++ quote ++ s ++ quote ++ ": invalid syntax".
Definition range_error (fn s : string) : string :=
    "strconv." ++ fn ++ ": parsing " ++ quote ++ s ++ quote ++ ": value out of range".

Fixpoint digits (s : string) (acc : Z) : option Z :=
    match s with
    | EmptyString => Some acc
    | String c s' =>
        let n := Z.of_nat (nat_of_ascii c) in
        if (48 <=? n) && (n <=? 57) then digits s' (10 * acc + (n - 48)) else None
    end.

Definition unsigned (sign : Z) (whole rest : string) : result Z :=
    match rest with
    | EmptyString => Err (syntax_error "Atoi" whole)
    | _ =>
        match digits rest 0 with
        | Some v =>
            if int64.in_range (sign * v) then Ok (sign * v)
            else Err (range_error "Atoi" whole)
        | None => Err (syntax_error "Atoi" whole)
        end
    end.

  (** [strconv.Atoi]: an optional sign and decimal digits, within [int]. *)
Definition Atoi (s : string) : result Z :=
    match s with
    | String "-" rest => unsigned (-1) s rest
    | String "+" rest => unsigned 1 s rest
    | _ => unsigned 1 s s
    end.

End strconv.

(* ===================================================================== *)
(** ** package parser (src/unnamed/part_000) *)
(* ===================================================================== *)

Module parser.
Import lexer.

  (** The node types.  Their declarations are not among the sources at hand;
      constructors and fields are those of the composite literals of the
      parser and of the selections of the evaluator.  A [ProgramNode] struct
      held by value ([FunctionCallNode.Parameters],
      [FunctionDefenitionNode.Consequence]) is the list of its [Nodes]. *)
Inductive Node : Type :=
  | ProgramNode (Nodes : list Node)
  | IdentifierNode (Identifier : string)
  | IntNode (Value : Z)
  | FloatNode (Value : float64)
  | StringNode (Value : string)
  | UnitNode (Value : Node) (Unit : string)
  | BinOpNode (Left : Node) (Operation : string) (Right : Node)
  | UnaryOpNode (Operation : string) (Right : Node)
  | FunctionCallNode (Identifier : string) (Parameters : list Node)
  | ArrayNode (Nodes : list Node)
  | AssignNode (Identifier : string) (Expression : Node)
  | FunctionDefenitionNode (Identifier : string) (Parameters : list Node)
                           (Consequence : list Node)
  | ErrorNode.

  (** The [Type()] method of a node: its tag among the [_NODE] constants
      (the tag of [ErrorNode] is taken to be [ERROR]). *)
Definition NodeType (n : Node) : string :=
    match n with
    | ProgramNode _ => PROGRAM_NODE
    | IdentifierNode _ => IDENTIFIER_NODE
    | IntNode _ => INT_NODE
    | FloatNode _ => FLOAT_NODE
    | StringNode _ => STRING_NODE
    | UnitNode _ _ => UNIT_NODE
    | BinOpNode _ _ _ => BIN_OP_NODE
    | UnaryOpNode _ _ => UNARY_OP_NODE
    | FunctionCallNode _ _ => FUNCTION_CALL_NODE
    | ArrayNode _ => ARRAY_NODE
    | AssignNode _ _ => ASSIGN_NODE
    | FunctionDefenitionNode _ _ _ => FUNCTION_DEFENITION_NODE
    | ErrorNode => ERROR
    end.

Record Parser := { tokens : list Token; token : Token; position : nat }.

Abbreviation P := (M Parser).

  (** [tokens[0]] panics on an empty slice. *)
Definition NewParser (tokens : list Token) : result Parser :=
    match tokens !! 0%nat with
    | Some t => Ok {| tokens := tokens; token := t; position := 0 |}
    | None => Panic index_out_of_range
    end.

Definition advance : P Token :=
    fun p =>
      let position := S (position p) in
      match tokens p !! position with
      | Some t => (Ok t, {| tokens := tokens p; token := t; position := position |})
      | None =>
          (Panic index_out_of_range,
           {| tokens := tokens p; token := token p; position := position |})
      end.

Definition peekToken : P Token :=
    fun p =>
      if (length (tokens p) <=? position p + 1)%nat
      then (Ok {| Type_ := EOF; Literal := EmptyString |}, p)
      else match tokens p !! (position p + 1)%nat with
           | Some t => (Ok t, p)
           | None => (Panic index_out_of_range, p)
           end.

  (** [p.token] *)
Definition cur : P Token := fun p => (Ok (token p), p).

Definition preferences : gmap string Z :=
    <[IN := 5]> (<[ARROW := 5]> (<[EE := 10]> (<[NE := 10]> (<[GT := 10]>
    (<[GTE := 10]> (<[LT := 10]> (<[LTE := 10]> (<[MOD := 15]> (<[ADD := 20]>
    (<[SUB := 20]> (<[MUL := 30]> (<[DIV := 30]> (<[POW := 40]>
    (<[LPAREN := 0]> ∅)))))))))))))).

Definition preference (tokenType : string) : Z :=
    match preferences !! tokenType with
    | Some rbp => rbp
    | None => -1
    end.

Fixpoint contains (array : list string) (element : string) : bool :=
    match array with
    | [] => false
    | e :: array' => if e == element then true else contains array' element
    end.

Definition infixOperators : list string :=
    ["EE"; "NE"; "LT"; "GT"; "LTE"; "GTE"; "ADD"; "SUB"; "MUL"; "DIV"; "MOD";
     "POW"; "IN"; "ARROW"].

  (** The tail shared by the [LPAREN], [IDENTIFIER], [INT] and [FLOAT] cases
      of [parsePrefix]: an identifier that follows at once is a unit. *)
Definition unitSuffix (node : Node) : P Node :=
    t <- cur ;;
    if Type_ t == IDENTIFIER then
      let unit := Literal t in
      do advance ;; ret (UnitNode node unit)
    else ret node.

Definition outOfFuel {A} : P A := fun p => (OutOfFuel, p).

Section Parsing.

    (** [strconv.ParseFloat(s, 64)], of the Go standard library. *)
Variable ParseFloat : string -> result float64.

Fixpoint parseExpression (fuel : nat) : P Node :=
      match fuel with
      | O => outOfFuel
      | S fuel =>
          t <- cur ;;
          pk <- peekToken ;;
          if (Type_ t == IDENTIFIER) && (Type_ pk == EQ) then
            parseAssignment fuel
          else if Type_ t == DEFINE then
            parseFunctionDefenition fuel
          else
            parseExpr fuel 0
      end

with parseFunctionDefenition (fuel : nat) : P Node :=
      match fuel with
      | O => outOfFuel
      | S fuel =>
          do advance ;;
          t <- cur ;;
          let identifer := Literal t in
          do advance ;;
          t <- cur ;;
          params <- (if Type_ t == LPAREN then
                       params <- parseParameters fuel RPAREN ;;
                       do advance ;;
                       ret params
                     else ret []) ;;
          t <- cur ;;
          if negb (Type_ t == ARROW) then
            fail "SyntaxError: expected => while parsing functionDefenition"
          else
            do advance ;;
            parseConsequence fuel identifer params []
      end

    (** The loop of [parseFunctionDefenition] that reads the body. *)
with parseConsequence (fuel : nat) (identifer : string) (params : list Node)
                          (consequence : list Node) : P Node :=
      match fuel with
      | O => outOfFuel
      | S fuel =>
          t <- cur ;;
          if Type_ t == EOF then
            ret (FunctionDefenitionNode identifer params consequence)
          else
            do (if Type_ t == SEMICOLON then do advance ;; ret tt else ret tt) ;;
            r <- catch (parseExpression fuel) ;;
            match r with
            | inr _ => ret ErrorNode
            | inl expr => parseConsequence fuel identifer params (consequence ++ [expr])
            end
      end

with parseAssignment (fuel : nat) : P Node :=
      match fuel with
      | O => outOfFuel
      | S fuel =>
          t <- cur ;;
          let identifier := Literal t in
          do advance ;;
          do advance ;;
          expr <- parseExpr fuel 0 ;;
          ret (AssignNode identifier expr)
      end

with parseExpr (fuel : nat) (rbp : Z) : P Node :=
      match fuel with
      | O => outOfFuel
      | S fuel =>
          left <- parsePrefix fuel ;;
          t <- cur ;;
          parseExprLoop fuel rbp left (preference (Type_ t))
      end

    (** The loop of [parseExpr]. *)
with parseExprLoop (fuel : nat) (rbp : Z) (left : Node) (peekRbp : Z) : P Node :=
      match fuel with
      | O => outOfFuel
      | S fuel =>
          pk <- peekToken ;;
          if negb (Type_ pk == EOF) && negb (Type_ pk == SEMICOLON) && (rbp <=? peekRbp) then
            t <- cur ;;
            left <- parseInfix fuel left (Type_ t) ;;
            t <- cur ;;
            parseExprLoop fuel rbp left (preference (Type_ t))
          else ret left
      end

with parsePrefix (fuel : nat) : P Node :=
      match fuel with
      | O => outOfFuel
      | S fuel =>
          t <- cur ;;
          if Type_ t == TILDE then
            do advance ;;
            expression <- parsePrefix fuel ;;
            ret (UnaryOpNode TILDE expression)
          else if Type_ t == NOT then
            do advance ;;
            expression <- parsePrefix fuel ;;
            ret (UnaryOpNode NOT expression)
          else if Type_ t == SUB then
            do advance ;;
            expression <- parsePrefix fuel ;;
            ret (UnaryOpNode SUB expression)
          else if Type_ t == LPAREN then
            do advance ;;
            expression <- parseExpr fuel (preference LPAREN) ;;
            do advance ;;
            unitSuffix expression
          else if Type_ t == LSQUARE then
            nodes <- parseParameters fuel RSQUARE ;;
            do advance ;;
            ret (ArrayNode nodes)
          else if Type_ t == IDENTIFIER then
            let identifier := Literal t in
            do advance ;;
            t <- cur ;;
            if Type_ t == LPAREN then
              r <- catch (parseParameters fuel RPAREN) ;;
              match r with
              | inr _ => ret ErrorNode
              | inl params =>
                  do advance ;;
                  ret (FunctionCallNode identifier params)
              end
            else unitSuffix (IdentifierNode identifier)
          else if Type_ t == INT then
            value <- lift (strconv.Atoi (Literal t)) ;;
            do advance ;;
            unitSuffix (IntNode value)
          else if Type_ t == FLOAT then
            value <- lift (ParseFloat (Literal t)) ;;
            do advance ;;
            unitSuffix (FloatNode value)
          else if Type_ t == STRING then
            let value := Literal t in
            do advance ;;
            ret (StringNode value)
          else
            fail ("SyntaxError: parsePrefix() unsupported prefix:" ++ Literal t)
      end

with parseInfix (fuel : nat) (left : Node) (operation : string) : P Node :=
      match fuel with
      | O => outOfFuel
      | S fuel =>
          t <- cur ;;
          if negb (contains infixOperators (Type_ t)) then
            fail ("SyntaxError: parseInfix() unsupported opperator:" ++ Literal t)
          else
            do advance ;;
            right <- parseExpr fuel (preference operation + 1) ;;
            let operation := if operation == ARROW then IN else operation in
            ret (BinOpNode left operation right)
      end

with parseParameters (fuel : nat) (terminate : string) : P (list Node) :=
      match fuel with
      | O => outOfFuel
      | S fuel =>
          do advance ;;
          t <- cur ;;
          if Type_ t == RPAREN then ret []
          else parseParametersLoop fuel terminate []
      end

    (** The loop of [parseParameters]. *)
with parseParametersLoop (fuel : nat) (terminate : string)
                             (parameters : list Node) : P (list Node) :=
      match fuel with
      | O => outOfFuel
      | S fuel =>
          t <- cur ;;
          if Type_ t == terminate then ret parameters
          else if (Type_ t == EOF) || (Type_ t == SEMICOLON) then
            fail "SyntaxError: Unclosed parenthesis parseParameters()"
          else if negb (Type_ t == COMMA) then
            param <- parseExpr fuel 0 ;;
            parseParametersLoop fuel terminate (parameters ++ [param])
          else
            do advance ;;
            parseParametersLoop fuel terminate parameters
      end.

    (** The loop of [Parse]. *)
Fixpoint ParseLoop (fuel : nat) (ast : list Node) : P Node :=
      match fuel with
      | O => outOfFuel
      | S fuel =>
          t <- cur ;;
          if Type_ t == EOF then ret (ProgramNode ast)
          else
            do (if Type_ t == SEMICOLON then do advance ;; ret tt else ret tt) ;;
            node <- parseExpression fuel ;;
            ParseLoop fuel (ast ++ [node])
      end.

Definition Parse (fuel : nat) : P Node := ParseLoop fuel [].

    (** [NewParser(tokens).Parse()] *)
Definition ParseTokens (fuel : nat) (tokens : list Token) : result Node :=
      match NewParser tokens with
      | Ok p => fst (Parse fuel p)
      | Err e => Err e
      | Panic w => Panic w
      | OutOfFuel => OutOfFuel
      end.

End Parsing.

End parser.

(* ===================================================================== *)
(** ** package strings (Go standard library) *)
(* ===================================================================== *)

Module strings_.

Definition lower (c : ascii) : ascii :=
  let n := nat_of_ascii c in
  if ((65 <=? n) && (n <=? 90))%nat then ascii_of_nat (n + 32) else c.

(** [strings.EqualFold], on ASCII letters (the folding of letters outside
    ASCII is not modelled). *)
Fixpoint EqualFold (s t : string) : bool :=
  match s, t with
  | EmptyString, EmptyString => true
  | String a s', String b t' => Ascii.eqb (lower a) (lower b) && EqualFold s' t'
  | _, _ => false
  end.

End strings_.

(* ===================================================================== *)
(** ** package evaluator: values and environment *)
(* ===================================================================== *)

Module evaluator.
Import lexer parser.

(** The object types.  Their declarations are not among the sources at hand;
    constructors and fields are those of the composite literals and type
    assertions of the evaluator.  [Number] is the interface of the objects
    with an [Inspect() float64] method: [*Integer], [*Float] and [*Unit]. *)
Inductive Number : Type :=
| Integer (Value : Z)
| Float (Value : float64)
| Unit (Value : float64) (Unit_ : string).

(** An [Object] interface value.  [NoObject] is the nil interface value (the
    zero value that a map yields for a missing key); calling a method on it
    panics.  [String_] and [Program_] are the Go types [String] and
    [Program]. *)
Inductive Object : Type :=
| Num (n : Number)
| String_ (Value : string)
| Program_ (Objects : list Object)
| Nil
| Error
| NoObject.

Coercion Num : Number >-> Object.

Definition Inspect (n : Number) : float64 :=
  match n with
  | Integer v => float64.of_int v
  | Float v => v
  | Unit v _ => v
  end.

(** The [Type()] method on a non-nil object: its tag among the [_OBJ]
    constants (the tags of [Nil] and [Error] are taken to be [NIL] and
    [ERROR]). *)
Definition NumberType (n : Number) : string :=
  match n with
  | Integer _ => INT_OBJ
  | Float _ => FLOAT_OBJ
  | Unit _ _ => UNIT_OBJ
  end.

Definition ObjectType (o : Object) : result string :=
  match o with
  | Num n => Ok (NumberType n)
  | String_ _ => Ok STRING_OBJ
  | Program_ _ => Ok PROGRAM_OBJ
  | Nil => Ok NIL
  | Error => Ok ERROR
  | NoObject => Panic nil_dereference
  end.

(** A record of the periodic table: the keys that [lookupElements] and
    [Eval] read from the untyped JSON value. *)
Record Element := { symbol : string; name : string; atomic_mass : float64 }.

(** A [*parser.FunctionDefenitionNode] held in the functions table. *)
Record Function := {
  Identifier : string;
  Parameters : list Node;
  Consequence : list Node
}.

(** The environment.  Its declaration is not among the sources at hand; the
    fields are those that the evaluator selects.  A nil map reads as the
    empty map.  [PeriodicTable] is [None] when the map has no ["elements"]
    list (as in the zero value), on which the type assertion of
    [lookupElements] panics. *)
Record Environment := {
  Constants : gmap string Object;
  Variables : gmap string Object;
  Functions : gmap string Function;
  PeriodicTable : option (list Element)
}.

Abbreviation E := (M Environment).

(** What the evaluator calls outside this repository's sources. *)
Record Externals := {
  (** [strutil.Similarity(a, b, metrics.NewLevenshtein())] *)
  strutil_Similarity : string -> string -> float64;
  (** [units.Find(name)] succeeds *)
  units_Find : string -> bool;
  (** [units.MustConvertFloat(u, from, to).Float()], which panics when the
      registry has no conversion between the two units *)
  units_MustConvertFloat : float64 -> string -> string -> result float64;
  (** [math.Pow], [math.Mod] *)
  math_Pow : float64 -> float64 -> float64;
  math_Mod : float64 -> float64 -> float64;
  (** the order in which [range] visits the keys of a map: some enumeration
      of its keys, not specified by the language *)
  rangeKeys : gmap string Object -> list string;
  rangeKeys_perm : forall m, Permutation (rangeKeys m) (map fst (map_to_list m));
  (** the [String()] method of objects *)
  ObjectString : Object -> string;
  (** the built-in functions *)
  frac : list Object -> E Object;
  print : list Object -> E Object;
  root : list Object -> E Object;
  lookup_ : list Object -> E Object
}.

(* ===================================================================== *)
(** ** package evaluator: helper functions *)
(* ===================================================================== *)

Definition boolToInt (value : bool) : Z := if value then 1 else 0.

Definition formatFloat (float : float64) : Number :=
  if float64.eqb (float64.of_int (float64.to_int float)) float then
    Integer (float64.to_int float)
  else
    (* Format Float to 5 dp *)
    Float (float64.div (float64.Round (float64.mul float (float64.of_int 100000)))
                       (float64.of_int 100000)).

(** [(Object, error)] with a non-nil error: the object is [&Error{}]. *)
Definition handleReturn {S} (m : M S Object) : M S Object :=
  fun s =>
    match m s with
    | (Ok obj, s') => (Ok obj, s')
    | (Err e, s') => (Err e, s')
    | (Panic w, s') => (Panic w, s')
    | (OutOfFuel, s') => (OutOfFuel, s')
    end.

Fixpoint lookupElementsLoop (elementIdentifier : string) (elements : list Element)
  : result Element :=
  match elements with
  | [] => Err "EvaluationError: Identifier undefined"
  | element :: elements' =>
      if symbol element == elementIdentifier then Ok element
      else if strings_.EqualFold (name element) elementIdentifier then Ok element
      else lookupElementsLoop elementIdentifier elements'
  end.

Definition lookupElements (elementIdentifier : string)
                          (periodicTable : option (list Element)) : result Element :=
  match periodicTable with
  | None => Panic interface_conversion
  | Some elements => lookupElementsLoop elementIdentifier elements
  end.

(** The loop of [similarity]: the number of leading bytes on which [a] and
    [b] agree. *)
Fixpoint commonPrefix (a b : string) : nat :=
  match a, b with
  | String x a', String y b' => if Ascii.eqb x y then S (commonPrefix a' b') else O
  | _, _ => O
  end.

Section WithExternals.

Variable X : Externals.

Definition isNumberObject (object : Object) : result Number :=
  match object with
  | Num obj => Ok obj
  | NoObject => Panic interface_conversion
  | _ => Err ("EvaluatorError:" ++ ObjectString X object ++ " is not type Number")
  end.

Definition convert (u : float64) (from to : string) : result Number :=
  if from == to then Ok (Unit u from)
  else if negb (units_Find X from) then
    Err ("ConversionError: Unit " ++ from ++ " not defined")
  else if negb (units_Find X to) then
    Err ("ConversionError: Unit " ++ to ++ " not defined")
  else
    match units_MustConvertFloat X u from to with
    | Ok v => Ok (Unit (Inspect (formatFloat v)) to)
    | Err e => Err e
    | Panic w => Panic w
    | OutOfFuel => OutOfFuel
    end.

(** [i / len(a)] is a division of integers. *)
Definition similarity (a b : string) : result float64 :=
  let sequencer := strutil_Similarity X a b in
  let i := commonPrefix a b in
  if (String.length a =? 0)%nat then Panic integer_divide_by_zero
  else
    let consecutiveCertainty := Z.quot (Z.of_nat i) (Z.of_nat (String.length a)) in
    Ok (float64.add (float64.mul (float64.of_int consecutiveCertainty) float64.half)
                    (float64.mul sequencer float64.half)).

Definition binaryOperations (left right : float64) (operation : string) : float64 :=
  if operation == ADD then float64.add left right
  else if operation == SUB then float64.sub left right
  else if operation == DIV then float64.div left right
  else if operation == MUL then float64.mul left right
  else if operation == POW then math_Pow X left right
  else if operation == MOD then math_Mod X left right
  else if operation == EE then float64.of_int (boolToInt (float64.eqb left right))
  else if operation == NE then float64.of_int (boolToInt (float64.neb left right))
  else if operation == LT then float64.of_int (boolToInt (float64.ltb left right))
  else if operation == LTE then float64.of_int (boolToInt (float64.leb left right))
  else if operation == GT then float64.of_int (boolToInt (float64.gtb left right))
  else if operation == GTE then float64.of_int (boolToInt (float64.geb left right))
  else float64.zero.

Definition isUnit (n : Number) : bool := NumberType n == UNIT_OBJ.

Definition unitOf (n : Number) : string :=
  match n with
  | Unit _ u => u
  | _ => EmptyString
  end.

Definition evalNumberInfix (left right : Number) (operation : string) : result Object :=
  let leftVal := Inspect left in
  let rightVal := Inspect right in
  match (if isUnit left && isUnit right then
           match convert (Inspect left) (unitOf left) (unitOf right) with
           | Ok convertedLeft => Ok (Inspect convertedLeft)
           | Err e => Err e
           | Panic w => Panic w
           | OutOfFuel => OutOfFuel
           end
         else Ok leftVal) with
  | Ok leftVal =>
      let value := formatFloat (binaryOperations leftVal rightVal operation) in
      if isUnit left && isUnit right then
        Ok (Num (Unit (Inspect value) (unitOf right)))
      else if isUnit left then
        Ok (Num (Unit (Inspect value) (unitOf left)))
      else if isUnit right then
        Ok (Num (Unit (Inspect value) (unitOf right)))
      else Ok (Num value)
  | Err e => Err e
  | Panic w => Panic w
  | OutOfFuel => OutOfFuel
  end.

Definition evalStringInfix (left right : string) (operation : string) : result Object :=
  if operation == ADD then Ok (String_ (left ++ right))
  else Err ("BinaryOperationError: Unsupported Operation Between Strings " ++ operation).

(* --------------------------- Unary operations --------------------------- *)

(** [errors.New(prefix + node.Type())]: the method call panics on the nil
    interface value. *)
Definition typeError (prefix : string) (node : Object) : result Object :=
  match ObjectType node with
  | Ok t => Err (prefix ++ t)
  | Err e => Err e
  | Panic w => Panic w
  | OutOfFuel => OutOfFuel
  end.

Definition evalUnarySub (node : Object) : result Object :=
  match node with
  | Num (Integer v) => Ok (Num (Integer (int64.neg v)))
  | Num (Float v) => Ok (Num (Float (float64.neg v)))
  | _ => typeError "UnaryOperationError: Cannot negate type " node
  end.

Definition evalUnaryRound (node : Object) : result Object :=
  match node with
  | Num (Integer v) => Ok (Num (Integer v))
  | Num (Float v) => Ok (Num (Integer (float64.to_int (float64.Round v))))
  | _ => typeError "RoundingError: cannout round type " node
  end.

Definition evalUnaryNot (node : Object) : Number :=
  match node with
  | Num (Integer v) => if v =? 0 then Integer 1 else Integer 0
  | String_ v => if v == EmptyString then Integer 1 else Integer 0
  | _ => Integer 0
  end.

Definition evalUnaryOp (ev : Node -> E Object) (Operation : string) (Right : Node)
  : E Object :=
  result <- ev Right ;;
  if Operation == SUB then lift (evalUnarySub result)
  else if Operation == NOT then ret (Num (evalUnaryNot result))
  else if Operation == TILDE then lift (evalUnaryRound result)
  else fail ("UnaryOperationError: Unsupported " ++ Operation ++ " Operation").

(* --------------------------- Binary operations -------------------------- *)

(** The part of [evalBinaryOp] after the [in] cases: evaluate the right
    operand and dispatch on the type of the left one. *)
Definition evalInfix (ev : Node -> E Object) (left : Object) (Operation : string)
                     (Right : Node) : E Object :=
  right <- ev Right ;;
  match left, right with
  | Num l, Num r => handleReturn (lift (evalNumberInfix l r Operation))
  | String_ l, String_ r => handleReturn (lift (evalStringInfix l r Operation))
  | String_ _, NoObject => panic nil_dereference
  | _, _ =>
      lt <- lift (ObjectType left) ;;
      rt <- lift (ObjectType right) ;;
      fail ("BinaryOperationError: Unsupported Types: " ++ lt ++ Operation ++ rt)
  end.

Definition evalBinaryOp (ev : Node -> E Object) (Left : Node) (Operation : string)
                        (Right : Node) : E Object :=
  left <- ev Left ;;
  if (Operation == IN) && (NodeType Right == IDENTIFIER_NODE) then
    match Right, left with
    | IdentifierNode toIdentifier, Num (Unit v u) =>
        r <- lift (convert v u toIdentifier) ;; ret (Num r)
    | IdentifierNode toIdentifier, Num leftUnit =>
        r <- lift (convert (Inspect leftUnit) toIdentifier toIdentifier) ;; ret (Num r)
    | IdentifierNode _, _ => evalInfix ev left Operation Right
    | _, _ => panic interface_conversion
    end
  else if (Operation == IN) && negb (NodeType Right == IDENTIFIER_NODE) then
    lt <- lift (ObjectType left) ;;
    fail ("ConversionError: IN cannot convert " ++ lt ++ " and " ++ NodeType Right)
  else evalInfix ev left Operation Right.

(* ------------------------------ Identifiers ----------------------------- *)

(** The [range] loop of the identifier case, over the keys in the order of
    the iteration. *)
Fixpoint fuzzyLoop (Identifier : string) (variables : list string)
                   (maxIdentifier : string) (maxSimilarity : float64) : result string :=
  match variables with
  | [] => Ok maxIdentifier
  | variable :: variables' =>
      match similarity Identifier variable with
      | Ok similarity =>
          if float64.gtb similarity maxSimilarity
          then fuzzyLoop Identifier variables' variable similarity
          else fuzzyLoop Identifier variables' maxIdentifier maxSimilarity
      | Err e => Err e
      | Panic w => Panic w
      | OutOfFuel => OutOfFuel
      end
  end.

(** [m[k]] on a map of objects: the nil interface value when [k] is absent. *)
Definition index (m : gmap string Object) (k : string) : Object :=
  match m !! k with
  | Some v => v
  | None => NoObject
  end.

Definition evalIdentifier (Identifier : string) : E Object :=
  fun environment =>
    match Constants environment !! Identifier with
    | Some value => (Ok value, environment)
    | None =>
        match lookupElements Identifier (PeriodicTable environment) with
        | Ok element => (Ok (Num (formatFloat (atomic_mass element))), environment)
        | Panic w => (Panic w, environment)
        | OutOfFuel => (OutOfFuel, environment)
        | Err _ =>
            match Variables environment !! Identifier with
            | Some value => (Ok value, environment)
            | None =>
                if (size (Variables environment) <? 1)%nat then
                  (Err ("VarAccessError: Undefined variable identifier " ++ Identifier),
                   environment)
                else
                  match fuzzyLoop Identifier (rangeKeys X (Variables environment))
                                  EmptyString float64.zero with
                  | Ok maxIdentifier =>
                      (Ok (index (Variables environment) maxIdentifier), environment)
                  | Err e => (Err e, environment)
                  | Panic w => (Panic w, environment)
                  | OutOfFuel => (OutOfFuel, environment)
                  end
            end
        end
    end.

(* ----------------------------- Function calls --------------------------- *)

(** [environment.Variables[k] = v] and [environment.Functions[k] = n]: writes
    through the map references held by the environment. *)
Definition setVariable (k : string) (v : Object) (environment : Environment)
  : Environment :=
  {| Constants := Constants environment;
     Variables := <[k := v]> (Variables environment);
     Functions := Functions environment;
     PeriodicTable := PeriodicTable environment |}.

Definition setFunction (k : string) (n : Function) (environment : Environment)
  : Environment :=
  {| Constants := Constants environment;
     Variables := Variables environment;
     Functions := <[k := n]> (Functions environment);
     PeriodicTable := PeriodicTable environment |}.

(** [Environment{Variables: make(map[string]Object),
                 Functions: make(map[string]*parser.FunctionDefenitionNode)}]:
    two new empty maps; the fields that the literal leaves out are nil. *)
Definition newEnvironment : Environment :=
  {| Constants := ∅; Variables := ∅; Functions := ∅; PeriodicTable := None |}.

(** Run [m] on the environment [env] of a callee; the caller's environment
    is a different set of maps and is not touched. *)
Definition inEnvironment {A} (env : Environment) (m : E A) : E A :=
  fun caller => (fst (m env), caller).

(** The built-in table of [evalFunctionCall]. *)
Definition functions : gmap string (list Object -> E Object) :=
  <["frac" := frac X]> (<["print" := print X]> (<["root" := root X]>
  (<["lookup" := lookup_ X]> ∅))).

(** The loop over the nodes of a [ProgramNode]. *)
Fixpoint evalNodes (ev : Node -> E Object) (Nodes : list Node) (Objects : list Object)
  : E Object :=
  match Nodes with
  | [] => ret (Program_ Objects)
  | node :: Nodes' =>
      result <- ev node ;;
      evalNodes ev Nodes' (Objects ++ [result])
  end.

(** The loop of [evalFunctionCall] over the argument nodes: the [i]-th
    declared parameter is read first (which panics when there is none, or
    when it is not an identifier), then the argument is evaluated in the
    environment of the caller and bound in [env]. *)
Fixpoint bindArguments (ev : Node -> E Object) (declared : list Node) (i : nat)
                       (arguments : list Node) (env : Environment) : E Environment :=
  match arguments with
  | [] => ret env
  | node :: arguments' =>
      match declared !! i with
      | Some (IdentifierNode identifer) =>
          result <- ev node ;;
          bindArguments ev declared (S i) arguments' (setVariable identifer result env)
      | Some _ => panic interface_conversion
      | None => panic index_out_of_range
      end
  end.

Definition notDefined (Identifier : string) : string :=
  "FunctionCallError: Function with Identifer " ++ Identifier ++ " is not defined".

(** The last object of the [Program] that the body evaluated to: the index
    [len(Objects)-1] is out of range when the body has no statement. *)
Definition lastObject (result : Object) : E Object :=
  match result with
  | Program_ Objects =>
      match last Objects with
      | Some object => ret object
      | None => panic index_out_of_range
      end
  | _ => panic interface_conversion
  end.

Definition evalFunctionCall (ev : Node -> E Object) (Identifier : string)
                            (Parameters : list Node) : E Object :=
  environment <- getState ;;
  match functions !! Identifier with
  | Some function =>
      params <- ev (ProgramNode Parameters) ;;
      match params with
      | Program_ paramsProgram => function paramsProgram
      | _ => fail (notDefined Identifier)
      end
  | None =>
      match Functions environment !! Identifier with
      | Some function =>
          env <- bindArguments ev (evaluator.Parameters function) 0 Parameters
                               newEnvironment ;;
          result <- inEnvironment env (ev (ProgramNode (Consequence function))) ;;
          lastObject result
      | None => fail (notDefined Identifier)
      end
  end.

(* ---------------------------------- Eval -------------------------------- *)

Definition outOfFuel {A} : E A := fun environment => (OutOfFuel, environment).

Fixpoint Eval (fuel : nat) (node : Node) : E Object :=
  match fuel with
  | O => outOfFuel
  | S fuel =>
      match node with
      | ProgramNode Nodes => evalNodes (Eval fuel) Nodes []
      | UnaryOpNode Operation Right =>
          handleReturn (evalUnaryOp (Eval fuel) Operation Right)
      | BinOpNode Left Operation Right =>
          handleReturn (evalBinaryOp (Eval fuel) Left Operation Right)
      | UnitNode Value Unit_ =>
          value <- Eval fuel Value ;;
          objectValue <- lift (isNumberObject value) ;;
          ret (Num (Unit (Inspect objectValue) Unit_))
      | AssignNode Identifier Expression =>
          value <- Eval fuel Expression ;;
          environment <- getState ;;
          do putState (setVariable Identifier value environment) ;;
          ret Nil
      | FunctionCallNode Identifier Parameters =>
          evalFunctionCall (Eval fuel) Identifier Parameters
      | FunctionDefenitionNode Identifier Parameters Consequence =>
          environment <- getState ;;
          do putState (setFunction Identifier
                    {| evaluator.Identifier := Identifier;
                       evaluator.Parameters := Parameters;
                       evaluator.Consequence := Consequence |} environment) ;;
          ret Nil
      | IdentifierNode Identifier => evalIdentifier Identifier
      | IntNode Value => ret (Num (Integer Value))
      | FloatNode Value => ret (Num (Float Value))
      | StringNode Value => ret (String_ Value)
      | ArrayNode _ => ret Error
      | ErrorNode => ret Error
      end
  end.

End WithExternals.

End evaluator.

(* ===================================================================== *)
(** ** The collaborators, for the worked examples *)
(* ===================================================================== *)

Module world.
Import evaluator.

(** The Levenshtein distance with unit costs, on bytes. *)
Fixpoint distance (a : string) : string -> nat :=
  match a with
  | EmptyString => String.length
  | String x a' =>
      fix inner (b : string) : nat :=
        match b with
        | EmptyString => S (String.length a')
        | String y b' =>
            if Ascii.eqb x y then distance a' b'
            else S (Nat.min (Nat.min (distance a' b) (inner b')) (distance a' b'))
        end
  end.

(** [strutil.Similarity(a, b, metrics.NewLevenshtein())]: one minus the
    distance over the length of the longer string (one when both are
    empty). *)
Definition Similarity (a b : string) : float64 :=
  let maxLen := Nat.max (String.length a) (String.length b) in
  if (maxLen =? 0)%nat then float64.one
  else float64.sub float64.one
         (float64.div (float64.of_int (Z.of_nat (distance a b)))
                      (float64.of_int (Z.of_nat maxLen))).

(** A registry with the units of [DefineUnits]: a week is seven days. *)
Definition Find (unit : string) : bool := (unit == "day") || (unit == "week").

Definition MustConvertFloat (u : float64) (from to : string) : result float64 :=
  if (from == "week") && (to == "day") then Ok (float64.mul u (float64.of_int 7))
  else if (from == "day") && (to == "week") then Ok (float64.div u (float64.of_int 7))
  else if from == to then Ok u
  else Panic ("no conversion from " ++ from ++ " to " ++ to).

(** [range] in the order of the keys' encoding. *)
Definition rangeKeys (m : gmap string Object) : list string := map fst (map_to_list m).

(** The collaborators of the examples.  None of the examples reaches
    [math.Pow], [math.Mod], the display of objects or a built-in function:
    these are placeholders. *)
Definition sample : Externals :=
  {| strutil_Similarity := Similarity;
     units_Find := Find;
     units_MustConvertFloat := MustConvertFloat;
     math_Pow := fun _ _ => S754_nan;
     math_Mod := fun _ _ => S754_nan;
     evaluator.rangeKeys := rangeKeys;
     evaluator.rangeKeys_perm := fun m => Permutation_refl (rangeKeys m);
     ObjectString := fun _ => EmptyString;
     frac := fun _ => ret Nil;
     print := fun _ => ret Nil;
     root := fun _ => ret Nil;
     lookup_ := fun _ => ret Nil |}.

(** An environment as the driver creates it: no constants, no variables, no
    functions, and a periodic table with two elements. *)
Definition table : list Element :=
  [ {| symbol := "H"; name := "Hydrogen"; atomic_mass := float64.of_int 1 |};
    {| symbol := "He"; name := "Helium"; atomic_mass := float64.of_int 4 |} ].

Definition empty : Environment :=
  {| Constants := ∅; Variables := ∅; Functions := ∅; PeriodicTable := Some table |}.

End world.

(* ===================================================================== *)
(** ** The vocabulary of the specification *)
(* ===================================================================== *)

Module spec.
Import lexer parser evaluator.

(** The comparison operators, and whether the comparison that an operator
    names holds of two magnitudes. *)
Definition comparisons : list string := [EE; NE; LT; LTE; GT; GTE].

Definition holds (operation : string) (l r : float64) : bool :=
  if operation == EE then float64.eqb l r
  else if operation == NE then negb (float64.eqb l r)
  else if operation == LT then float64.ltb l r
  else if operation == LTE then float64.leb l r
  else if operation == GT then float64.ltb r l
  else if operation == GTE then float64.leb r l
  else false.

(** The result of an operation on the magnitudes [l] and [r], normalized
    and tagged with the unit [u]. *)
Definition tagged (X : Externals) (l r : float64) (operation u : string) : Object :=
  Num (Unit (Inspect (formatFloat (binaryOperations X l r operation))) u).

(** A node is a bare identifier. *)
Definition bareIdentifier (n : Node) : Prop := exists name, n = IdentifierNode name.

(** Modelled from the spec: the tokenizer is not among the sources at hand.
    These are the token sequences of three source texts, with the token kinds
    of the data model (section 3) and the closing end-of-file token:
    [define add(a, b) => a + b; add(2, 3)], [f(1] and [[1]. *)
Definition tk (kind literal : string) : Token := {| Type_ := kind; Literal := literal |}.

Definition define_add : list Token :=
  [tk DEFINE "define"; tk IDENTIFIER "add"; tk LPAREN "("; tk IDENTIFIER "a";
   tk COMMA ","; tk IDENTIFIER "b"; tk RPAREN ")"; tk ARROW "=>";
   tk IDENTIFIER "a"; tk ADD "+"; tk IDENTIFIER "b"; tk SEMICOLON ";";
   tk IDENTIFIER "add"; tk LPAREN "("; tk INT "2"; tk COMMA ","; tk INT "3";
   tk RPAREN ")"; tk EOF EmptyString].

Definition unclosed_call : list Token :=
  [tk IDENTIFIER "f"; tk LPAREN "("; tk INT "1"; tk EOF EmptyString].

Definition unclosed_array : list Token :=
  [tk LSQUARE "["; tk INT "1"; tk EOF EmptyString].

(** The definition that the parser reads from [define_add]. *)
Definition add_function : Function :=
  {| Identifier := "add";
     Parameters := [IdentifierNode "a"; IdentifierNode "b"];
     Consequence := [BinOpNode (IdentifierNode "a") ADD (IdentifierNode "b");
                     FunctionCallNode "add" [IntNode 2; IntNode 3]] |}.

(** The arguments of a call, evaluated in order in the environment of the
    caller. *)
Fixpoint evalArguments (ev : Node -> E Object) (arguments : list Node) : E (list Object) :=
  match arguments with
  | [] => ret []
  | node :: arguments' =>
      value <- ev node ;;
      values <- evalArguments ev arguments' ;;
      ret (value :: values)
  end.

(** The parameters bound by position to the values, first to first. *)
Fixpoint bindPositional (names : list string) (values : list Object)
                        (variables : gmap string Object) : gmap string Object :=
  match names, values with
  | name :: names', value :: values' =>
      bindPositional names' values' (<[name := value]> variables)
  | _, _ => variables
  end.

Definition withVariables (variables : gmap string Object) (env : Environment)
  : Environment :=
  {| Constants := Constants env; Variables := variables;
     Functions := Functions env; PeriodicTable := PeriodicTable env |}.



Definition k_function : Function :=
  {| Identifier := "k"; Parameters := [IdentifierNode "a"; IdentifierNode "b"];
     Consequence := [IntNode 7] |}.


(** The similarity score as the specification words it: half of the length
    of the shared prefix divided by the length of the queried name, plus half
    of the Levenshtein similarity. *)
Definition score (X : Externals) (a b : string) : float64 :=
  float64.add
    (float64.mul (float64.div (float64.of_int (Z.of_nat (commonPrefix a b)))
                              (float64.of_int (Z.of_nat (String.length a))))
                 float64.half)
    (float64.mul (strutil_Similarity X a b) float64.half).

(** Environments for the examples of the resolution of identifiers: [ac = 1]
    and [xab = 2]; [xyz = 1]. *)
Definition ac_xab : Environment :=
  setVariable "xab" (Num (Integer 2)) (setVariable "ac" (Num (Integer 1)) world.empty).
Definition only_xyz : Environment :=
  setVariable "xyz" (Num (Integer 1)) world.empty.

(** A float has no fractional part: it is a zero, or a finite number whose
    bits of weight below one are all zero. *)
Definition integral (f : float64) : bool :=
  match f with
  | S754_zero _ => true
  | S754_finite _ m (Zneg k) => Z.land (Zpos m) (Z.ones (Zpos k)) =? 0
  | S754_finite _ _ _ => true
  | _ => false
  end.

(** [round(value * 100000) / 100000] *)
Definition rounded (f : float64) : float64 :=
  float64.div (float64.Round (float64.mul f (float64.of_int 100000)))
              (float64.of_int 100000).

(** Three values for the examples of the normalization: 0.999999;
    39299791343.408485 and its two successors in binary64. *)
Definition almost_one : float64 :=
  float64.div (float64.of_int 999999) (float64.of_int 1000000).
Definition drifting : float64 := S754_finite false 5151102250963237 (-17).
Definition drifting1 : float64 := S754_finite false 5151102250963238 (-17).
Definition drifting2 : float64 := S754_finite false 5151102250963239 (-17).

(** The parser stands on a token of its input: the current token is the one
    at the current position. *)
Definition consistent (p : Parser) : Prop := tokens p !! position p = Some (token p).

(** A parsing step keeps the input: it does not change the token list, it
    does not move backwards and, unless it panics, it leaves the parser on a
    token of the input. *)
Definition keepsInput {A} (m : P A) : Prop :=
  forall p r p', m p = (r, p') ->
    tokens p' = tokens p /\ (position p <= position p')%nat
    /\ (consistent p -> (forall why, r <> Panic why) -> consistent p').

(** All the parsing functions keep the input, for a given budget. *)
Definition allKeep pf fuel : Prop :=
  keepsInput (parseExpression pf fuel)
  /\ keepsInput (parseFunctionDefenition pf fuel)
  /\ (forall i ps cs, keepsInput (parseConsequence pf fuel i ps cs))
  /\ keepsInput (parseAssignment pf fuel)
  /\ (forall rbp, keepsInput (parseExpr pf fuel rbp))
  /\ (forall rbp l prbp, keepsInput (parseExprLoop pf fuel rbp l prbp))
  /\ keepsInput (parsePrefix pf fuel)
  /\ (forall l op, keepsInput (parseInfix pf fuel l op))
  /\ (forall t, keepsInput (parseParameters pf fuel t))
  /\ (forall t ps, keepsInput (parseParametersLoop pf fuel t ps)).

(** The operation that [parseInfix] records for an operator token. *)
Definition normalized (operation : string) : string :=
  if (operation =? ARROW)%string then IN else operation.

(** The token sequence [x op1 y op2 z], for three identifiers and two
    operator tokens. *)
Definition twoOperators (x op1 l1 y op2 l2 z : string) : list Token :=
  [spec.tk IDENTIFIER x; spec.tk op1 l1; spec.tk IDENTIFIER y; spec.tk op2 l2;
   spec.tk IDENTIFIER z; spec.tk EOF EmptyString].

(** An element answers to an identifier: by its symbol, or by its name up to
    the case of letters. *)
Definition matchesElement (elementIdentifier : string) (element : Element) : Prop :=
  symbol element = elementIdentifier
  \/ strings_.EqualFold (name element) elementIdentifier = true.

(** What an evaluation leaves of an environment: the constants and the
    periodic table as they were, and every variable and function name that
    was bound still bound. *)
Definition extends (env env' : Environment) : Prop :=
  Constants env' = Constants env
  /\ PeriodicTable env' = PeriodicTable env
  /\ dom (Variables env) ⊆ dom (Variables env')
  /\ dom (Functions env) ⊆ dom (Functions env').

Definition keepsTables {A} (m : E A) : Prop :=
  forall env r env', m env = (r, env') -> extends env env'.

(** The built-in functions, which are outside the sources at hand, are
    assumed to do the same. *)
Definition builtinsKeepTables (X : Externals) : Prop :=
  forall Objects,
    keepsTables (frac X Objects) /\ keepsTables (print X Objects)
    /\ keepsTables (root X Objects) /\ keepsTables (lookup_ X Objects).

(** The prefix operators. *)
Definition unaryOperators : list string := [SUB; NOT; TILDE].

(** The token sequence [u x op y], for a prefix operator, an infix operator
    and two identifiers. *)
Definition unaryThenBinary (u lu x op lo y : string) : list Token :=
  [tk u lu; tk IDENTIFIER x; tk op lo; tk IDENTIFIER y; tk EOF EmptyString].

(** The token sequence [( x t], where the token [t] stands in the place of
    the closing parenthesis. *)
Definition grouped (x : string) (t : Token) : list Token :=
  [tk LPAREN "("; tk IDENTIFIER x; t; tk EOF EmptyString].

End spec.

(* ===================================================================== *)
(** * Properties *)
(* ===================================================================== *)

Import lexer parser evaluator.

(** ** The step budget *)

Lemma refines_refl {S A} (m : M S A) : refines m m.
Proof. intros s r s' H _. exact H. Qed.

Lemma refines_bind {S A B} (m m' : M S A) (k k' : A -> M S B) :
  refines m m' -> (forall a, refines (k a) (k' a)) -> refines (bind m k) (bind m' k').
Proof.
  intros Hm Hk s r s'. unfold bind. destruct (m s) as [[a|e|w|] s1] eqn:E; intros H Hr.
  - rewrite (Hm s _ _ E) by discriminate. now apply Hk.
  - rewrite (Hm s _ _ E) by discriminate. exact H.
  - rewrite (Hm s _ _ E) by discriminate. exact H.
  - injection H as <- <-. congruence.
Qed.

Lemma refines_handleReturn {S} (m m' : M S Object) :
  refines m m' -> refines (handleReturn m) (handleReturn m').
Proof.
  intros Hm s r s'. unfold handleReturn. destruct (m s) as [[a|e|w|] s1] eqn:E; intros H Hr;
    try (rewrite (Hm s _ _ E) by discriminate; exact H).
  injection H as <- <-. congruence.
Qed.

Lemma refines_inEnvironment {A} env (m m' : E A) :
  refines m m' -> refines (inEnvironment env m) (inEnvironment env m').
Proof.
  intros Hm s r s'. unfold inEnvironment. intros H Hr. injection H as <- <-.
  destruct (m env) as [r e] eqn:E. simpl in *. now rewrite (Hm env _ _ E Hr).
Qed.

Section Budget.
Variable X : Externals.
Variables ev ev' : Node -> E Object.
Hypothesis Hev : forall node, refines (ev node) (ev' node).

Lemma refines_evalNodes Nodes : forall Objects,
  refines (evalNodes ev Nodes Objects) (evalNodes ev' Nodes Objects).
Proof.
  induction Nodes as [|node Nodes IH]; intros Objects; simpl.
  - apply refines_refl.
  - apply refines_bind; [apply Hev|]. intros a. apply IH.
Qed.

Lemma refines_evalUnaryOp op r :
  refines (evalUnaryOp ev op r) (evalUnaryOp ev' op r).
Proof. apply refines_bind; [apply Hev|]. intros a. apply refines_refl. Qed.

Lemma refines_evalInfix X' l op r :
  refines (evalInfix X' ev l op r) (evalInfix X' ev' l op r).
Proof. apply refines_bind; [apply Hev|]. intros a. apply refines_refl. Qed.

Lemma refines_evalBinaryOp l op r :
  refines (evalBinaryOp X ev l op r) (evalBinaryOp X ev' l op r).
Proof.
  apply refines_bind; [apply Hev|]. intros a.
  destruct (_ && _); [|destruct (_ && _); [apply refines_refl|apply refines_evalInfix]].
  destruct r; try apply refines_refl.
  destruct a as [[]| | | | |]; try apply refines_refl; apply refines_evalInfix.
Qed.

Lemma refines_bindArguments declared arguments : forall i env,
  refines (bindArguments ev declared i arguments env) (bindArguments ev' declared i arguments env).
Proof.
  induction arguments as [|node arguments IH]; intros i env; simpl.
  - apply refines_refl.
  - destruct (declared !! i) as [[]|]; try apply refines_refl.
    apply refines_bind; [apply Hev|]. intros a. apply IH.
Qed.

Lemma refines_evalFunctionCall id params :
  refines (evalFunctionCall X ev id params) (evalFunctionCall X ev' id params).
Proof.
  apply refines_bind; [apply refines_refl|]. intros environment.
  destruct (functions X !! id).
  - apply refines_bind; [apply Hev|]. intros a. apply refines_refl.
  - destruct (Functions environment !! id); [|apply refines_refl].
    apply refines_bind; [apply refines_bindArguments|]. intros env.
    apply refines_bind; [apply refines_inEnvironment, Hev|]. intros a. apply refines_refl.
Qed.
End Budget.

Lemma Eval_refines X k : forall n node, refines (Eval X n node) (Eval X (n + k) node).
Proof.
  induction n as [|n IH]; intros node.
  - intros s r s' H Hr. injection H as <- <-. congruence.
  - cbn [Nat.add Eval]. destruct node; try apply refines_refl.
    + apply refines_evalNodes, IH.
    + apply refines_bind; [apply IH|]. intros a. apply refines_refl.
    + apply refines_handleReturn, refines_evalBinaryOp, IH.
    + apply refines_handleReturn, refines_evalUnaryOp, IH.
    + apply refines_evalFunctionCall, IH.
    + apply refines_bind; [apply IH|]. intros a. apply refines_refl.
Qed.

(** An evaluation that ends within a budget ends in the same way within
    any larger one. *)
Lemma Eval_fuel_monotone X n k node env r env' :
  Eval X n node env = (r, env') -> r <> OutOfFuel -> Eval X (n + k) node env = (r, env').
Proof. intros H Hr. exact (Eval_refines X k n node env r env' H Hr). Qed.

(** ** Conversions and unit tags *)

Lemma convert_same X u U : convert X u U U = Ok (Unit u U).
Proof. unfold convert. now rewrite String.eqb_refl. Qed.

Lemma NodeType_identifier (n : Node) :
  NodeType n = IDENTIFIER_NODE <-> spec.bareIdentifier n.
Proof.
  split.
  - destruct n; simpl; try discriminate. intros _. now eexists.
  - intros [name ->]. reflexivity.
Qed.

Lemma ObjectType_defined (o : Object) : o <> NoObject -> exists t, ObjectType o = Ok t.
Proof. destruct o; simpl; eauto; congruence. Qed.

Lemma evalNumberInfix_left_unit X a u r operation :
  isUnit r = false ->
  evalNumberInfix X (Unit a u) r operation = Ok (spec.tagged X a (Inspect r) operation u).
Proof. intros Hr. unfold evalNumberInfix. rewrite Hr. reflexivity. Qed.

Lemma evalNumberInfix_right_unit X l b w operation :
  isUnit l = false ->
  evalNumberInfix X l (Unit b w) operation = Ok (spec.tagged X (Inspect l) b operation w).
Proof. intros Hl. unfold evalNumberInfix. rewrite Hl. reflexivity. Qed.

Lemma evalNumberInfix_both_units X a u b w operation :
  evalNumberInfix X (Unit a u) (Unit b w) operation
  = match convert X a u w with
    | Ok c => Ok (spec.tagged X (Inspect c) b operation w)
    | Err e => Err e
    | Panic why => Panic why
    | OutOfFuel => OutOfFuel
    end.
Proof. unfold evalNumberInfix. simpl. destruct (convert X a u w); reflexivity. Qed.

Lemma evalNumberInfix_no_unit X l r operation :
  isUnit l = false -> isUnit r = false ->
  evalNumberInfix X l r operation
  = Ok (Num (formatFloat (binaryOperations X (Inspect l) (Inspect r) operation))).
Proof. intros Hl Hr. unfold evalNumberInfix. rewrite Hl, Hr. reflexivity. Qed.

Lemma formatFloat_not_unit f : isUnit (formatFloat f) = false.
Proof. unfold formatFloat. destruct (float64.eqb _ _); reflexivity. Qed.

(** C10.  [x in U], for a plain number [x] (an Integer or a Float) and a bare
    identifier [U]: whatever the registry of units knows ([X] is arbitrary,
    and nothing is assumed of [units_Find X U]), the value is the unit value
    of magnitude [x] tagged [U]. *)
Theorem in_tags_plain_number X fuel Left U env env' (x : Number) :
  Eval X fuel Left env = (Ok (Num x), env') ->
  isUnit x = false ->
  Eval X (S fuel) (BinOpNode Left IN (IdentifierNode U)) env
  = (Ok (Num (Unit (Inspect x) U)), env').
Proof.
  intros H Hx. simpl. unfold handleReturn, evalBinaryOp, bind. rewrite H. simpl.
  destruct x; try discriminate; unfold lift; rewrite convert_same; reflexivity.
Qed.

(** [5 in furlong], with a registry that has no unit of that name. *)
Lemma in_tags_plain_number_witness :
  units_Find world.sample "furlong" = false /\
  isUnit (Integer 5) = false /\
  Eval world.sample 2 (BinOpNode (IntNode 5) IN (IdentifierNode "furlong")) world.empty
  = (Ok (Num (Unit (float64.of_int 5) "furlong")), world.empty).
Proof.
  split; [reflexivity|]. split; [reflexivity|].
  apply (in_tags_plain_number world.sample 1 (IntNode 5) "furlong"
           world.empty world.empty (Integer 5)); reflexivity.
Defined.

(** [l in r] where [r] is not a bare identifier: once the left operand has
    evaluated to an object, of whatever type, the evaluation fails with a
    ConversionError (and the right operand is not evaluated).  The left
    value has to be an object: see [in_on_absent_left_panics] for the nil
    value. *)
Theorem in_non_identifier_fails X fuel Left Right env env' (left : Object) :
  ~ spec.bareIdentifier Right ->
  Eval X fuel Left env = (Ok left, env') ->
  left <> NoObject ->
  exists t,
    ObjectType left = Ok t /\
    Eval X (S fuel) (BinOpNode Left IN Right) env
    = (Err ("ConversionError: IN cannot convert " ++ t ++ " and " ++ NodeType Right), env').
Proof.
  intros HR H Hl.
  destruct (ObjectType_defined left Hl) as [t Ht]. exists t. split; [exact Ht|].
  simpl. unfold handleReturn, evalBinaryOp, bind. rewrite H.
  assert (Hn : NodeType Right <> IDENTIFIER_NODE)
    by (intros Hn; apply HR, NodeType_identifier, Hn).
  apply String.eqb_neq in Hn. rewrite Hn. simpl. unfold lift. rewrite Ht. reflexivity.
Qed.

(** [[1] in 5]: the left operand is an array, the right one a literal. *)
Lemma in_non_identifier_fails_witness :
  exists t,
    ObjectType Error = Ok t /\
    Eval world.sample 2 (BinOpNode (ArrayNode [IntNode 1]) IN (IntNode 5)) world.empty
    = (Err ("ConversionError: IN cannot convert " ++ t ++ " and " ++ NodeType (IntNode 5)),
       world.empty).
Proof.
  apply (in_non_identifier_fails world.sample 1 (ArrayNode [IntNode 1]) (IntNode 5)
           world.empty world.empty Error).
  - intros [name Hname]. discriminate Hname.
  - reflexivity.
  - discriminate.
Defined.

(** C6 fails on [xyz = 1; abc in 5]: the right-hand side is a literal, the
    left operand [abc] evaluates successfully (no error) to the nil value,
    since no variable has a positive similarity to it, and the error message
    of the non-identifier branch calls [left.Type()] on that nil value: the
    evaluation panics instead of failing with a ConversionError. *)
Theorem in_on_absent_left_panics :
  ~ spec.bareIdentifier (IntNode 5)
  /\ Eval world.sample 1 (IdentifierNode "abc") spec.only_xyz = (Ok NoObject, spec.only_xyz)
  /\ Eval world.sample 2 (BinOpNode (IdentifierNode "abc") IN (IntNode 5)) spec.only_xyz
     = (Panic nil_dereference, spec.only_xyz)
  /\ Eval world.sample 3
       (ProgramNode [AssignNode "xyz" (IntNode 1);
                     BinOpNode (IdentifierNode "abc") IN (IntNode 5)])
       world.empty
     = (Panic nil_dereference, spec.only_xyz).
Proof.
  split; [intros [name Hname]; discriminate Hname|].
  repeat split; vm_compute; reflexivity.
Qed.

(** C4.  The unit tag of the result of a numeric operation: the unit of the
    one operand that has a unit, whichever side it is on; the unit of the
    right operand when both have one, the magnitude of the left operand being
    converted to it first (an error of the conversion is the result); no unit
    when neither operand has one. *)
Theorem unit_tag_of_result X operation :
  (forall a u r, isUnit r = false ->
     evalNumberInfix X (Unit a u) r operation
     = Ok (spec.tagged X a (Inspect r) operation u))
  /\ (forall l b w, isUnit l = false ->
     evalNumberInfix X l (Unit b w) operation
     = Ok (spec.tagged X (Inspect l) b operation w))
  /\ (forall a u b w,
     evalNumberInfix X (Unit a u) (Unit b w) operation
     = match convert X a u w with
       | Ok c => Ok (spec.tagged X (Inspect c) b operation w)
       | Err e => Err e
       | Panic why => Panic why
       | OutOfFuel => OutOfFuel
       end)
  /\ (forall l r, isUnit l = false -> isUnit r = false ->
     exists v, evalNumberInfix X l r operation = Ok (Num v) /\ isUnit v = false)
  /\ evalNumberInfix X (Integer 3) (Unit (float64.of_int 2) "meter") ADD
     = Ok (Num (Unit (float64.of_int 5) "meter"))
  /\ evalNumberInfix X (Unit (float64.of_int 2) "meter") (Integer 3) ADD
     = Ok (Num (Unit (float64.of_int 5) "meter"))
  /\ evalNumberInfix X (Unit (float64.of_int 1) "meter") (Unit (float64.of_int 1) "meter") ADD
     = Ok (Num (Unit (float64.of_int 2) "meter")).
Proof.
  split; [intros; now apply evalNumberInfix_left_unit|].
  split; [intros; now apply evalNumberInfix_right_unit|].
  split; [intros; apply evalNumberInfix_both_units|].
  split.
  - intros l r Hl Hr. eexists. split; [now apply evalNumberInfix_no_unit|].
    apply formatFloat_not_unit.
  - repeat split; vm_compute; reflexivity.
Qed.

(** [2 week * 3.5], [3.5 * 2 week] and [2 week + 3 day] (a week is seven
    days: 17 day). *)
Lemma unit_tag_of_result_witness :
  evalNumberInfix world.sample (Unit (float64.of_int 2) "week") (Float (float64.div (float64.of_int 7) (float64.of_int 2))) MUL
  = Ok (Num (Unit (float64.of_int 7) "week"))
  /\ evalNumberInfix world.sample (Float (float64.div (float64.of_int 7) (float64.of_int 2))) (Unit (float64.of_int 2) "week") MUL
  = Ok (Num (Unit (float64.of_int 7) "week"))
  /\ evalNumberInfix world.sample (Unit (float64.of_int 2) "week") (Unit (float64.of_int 3) "day") ADD
  = Ok (Num (Unit (float64.of_int 17) "day"))
  /\ exists v, evalNumberInfix world.sample (Integer 2) (Integer 3) ADD = Ok (Num v)
               /\ isUnit v = false.
Proof.
  destruct (unit_tag_of_result world.sample MUL) as (Hl & Hr & _).
  destruct (unit_tag_of_result world.sample ADD) as (_ & _ & Hb & Hn & _).
  split; [rewrite Hl; reflexivity|].
  split; [rewrite Hr; reflexivity|].
  split; [rewrite Hb; reflexivity|].
  apply Hn; reflexivity.
Defined.

(** The examples of the specification, through [Eval]: [3 + 2 meter],
    [2 meter + 3] and [1 meter + 1 meter], whatever the collaborators. *)
Lemma unit_tag_examples X n env :
  Eval X (3 + n) (BinOpNode (IntNode 3) ADD (UnitNode (IntNode 2) "meter")) env
  = (Ok (Num (Unit (float64.of_int 5) "meter")), env)
  /\ Eval X (3 + n) (BinOpNode (UnitNode (IntNode 2) "meter") ADD (IntNode 3)) env
     = (Ok (Num (Unit (float64.of_int 5) "meter")), env)
  /\ Eval X (3 + n) (BinOpNode (UnitNode (IntNode 1) "meter") ADD
                               (UnitNode (IntNode 1) "meter")) env
     = (Ok (Num (Unit (float64.of_int 2) "meter")), env).
Proof. repeat split; vm_compute; reflexivity. Qed.

(** ** Comparisons *)

Lemma binaryOperations_comparison X l r operation :
  In operation spec.comparisons ->
  binaryOperations X l r operation = float64.of_int (boolToInt (spec.holds operation l r)).
Proof.
  unfold spec.comparisons. simpl. intros H.
  repeat (destruct H as [<- | H]; [reflexivity|]). destruct H.
Qed.

Lemma formatFloat_bool b :
  formatFloat (float64.of_int (boolToInt b)) = Integer (boolToInt b).
Proof. destruct b; vm_compute; reflexivity. Qed.

Lemma tagged_comparison X l r operation u :
  In operation spec.comparisons ->
  spec.tagged X l r operation u
  = Num (Unit (float64.of_int (boolToInt (spec.holds operation l r))) u).
Proof.
  intros H. unfold spec.tagged.
  now rewrite (binaryOperations_comparison X l r operation H), formatFloat_bool.
Qed.

(** C5, as stated, fails on [2 meter < 3]: the comparison holds, and the
    value is the unit value [1 meter], not the Integer 1. *)
Lemma comparison_with_unit_counterexample :
  spec.holds LT (float64.of_int 2) (float64.of_int 3) = true
  /\ Eval world.sample 3 (BinOpNode (UnitNode (IntNode 2) "meter") LT (IntNode 3)) world.empty
     = (Ok (Num (Unit (float64.of_int 1) "meter")), world.empty)
  /\ fst (Eval world.sample 3 (BinOpNode (UnitNode (IntNode 2) "meter") LT (IntNode 3))
            world.empty)
     <> Ok (Num (Integer 1)).
Proof.
  split; [reflexivity|]. split; [vm_compute; reflexivity|].
  vm_compute. discriminate.
Qed.

(** C5, amended.  A comparison of two operands that are Integers or Floats
    evaluates to Integer 1 when it holds of the magnitudes and to Integer 0
    otherwise; when an operand has a unit, the value is the unit value of
    magnitude 1 or 0, tagged as the result of an arithmetic operation is (the
    left magnitude converted to the unit of the right operand when both have
    a unit). *)
Theorem comparison_result X operation :
  In operation spec.comparisons ->
  (forall l r, isUnit l = false -> isUnit r = false ->
     evalNumberInfix X l r operation
     = Ok (Num (Integer (boolToInt (spec.holds operation (Inspect l) (Inspect r))))))
  /\ (forall a u r, isUnit r = false ->
     evalNumberInfix X (Unit a u) r operation
     = Ok (Num (Unit (float64.of_int (boolToInt (spec.holds operation a (Inspect r)))) u)))
  /\ (forall l b w, isUnit l = false ->
     evalNumberInfix X l (Unit b w) operation
     = Ok (Num (Unit (float64.of_int (boolToInt (spec.holds operation (Inspect l) b))) w)))
  /\ (forall a u b w c, convert X a u w = Ok c ->
     evalNumberInfix X (Unit a u) (Unit b w) operation
     = Ok (Num (Unit (float64.of_int (boolToInt (spec.holds operation (Inspect c) b))) w))).
Proof.
  intros Hop. repeat split.
  - intros l r Hl Hr. rewrite evalNumberInfix_no_unit by assumption.
    now rewrite (binaryOperations_comparison X _ _ operation Hop), formatFloat_bool.
  - intros a u r Hr. rewrite evalNumberInfix_left_unit by assumption.
    now rewrite tagged_comparison.
  - intros l b w Hl. rewrite evalNumberInfix_right_unit by assumption.
    now rewrite tagged_comparison.
  - intros a u b w c Hc. rewrite evalNumberInfix_both_units, Hc.
    now rewrite tagged_comparison.
Qed.

(** [2 <= 2.5] is Integer 1, [3 == 2] is Integer 0, and [1 week > 3 day] is
    [1 day]. *)
Lemma comparison_result_witness :
  In LTE spec.comparisons
  /\ evalNumberInfix world.sample (Integer 2) (Float (float64.div (float64.of_int 5) (float64.of_int 2))) LTE
     = Ok (Num (Integer 1))
  /\ evalNumberInfix world.sample (Integer 3) (Integer 2) EE = Ok (Num (Integer 0))
  /\ evalNumberInfix world.sample (Unit (float64.of_int 1) "week") (Unit (float64.of_int 3) "day") GT
     = Ok (Num (Unit (float64.of_int 1) "day")).
Proof.
  assert (HLTE : In LTE spec.comparisons) by (simpl; tauto).
  assert (HEE : In EE spec.comparisons) by (simpl; tauto).
  assert (HGT : In GT spec.comparisons) by (simpl; tauto).
  split; [exact HLTE|].
  split; [rewrite (proj1 (comparison_result world.sample LTE HLTE)); reflexivity|].
  split; [rewrite (proj1 (comparison_result world.sample EE HEE)); reflexivity|].
  destruct (comparison_result world.sample GT HGT) as (_ & _ & _ & Hb).
  rewrite (Hb _ _ _ _ (Unit (float64.of_int 7) "day")); reflexivity.
Defined.

(** ** Parsing: function definitions and argument lists *)

(** The body of a [define] runs to the end of the input: the call that
    follows the semicolon is the second statement of the body.  Any budget of
    at least fourteen steps is enough for the parser. *)
Lemma parse_define_add ParseFloat n :
  ParseTokens ParseFloat (14 + n) spec.define_add
  = Ok (ProgramNode [FunctionDefenitionNode "add"
                       (Parameters spec.add_function) (Consequence spec.add_function)]).
Proof. vm_compute. reflexivity. Qed.

(** C2, as stated, fails: the program has one statement, and its value is
    the list [[Nil]]. *)
Lemma define_add_counterexample :
  exists ast,
    ParseTokens (fun _ => Err "unused") 14 spec.define_add = Ok ast
    /\ fst (Eval world.sample 2 ast world.empty) = Ok (Program_ [Nil])
    /\ fst (Eval world.sample 2 ast world.empty) <> Ok (Program_ [Nil; Num (Integer 5)]).
Proof.
  eexists. split; [apply (parse_define_add _ 0)|].
  split; [reflexivity|]. simpl. discriminate.
Qed.

(** C2, amended.  Parsing [define add(a, b) => a + b; add(2, 3)] gives a
    program of one statement, the definition of [add] with the two-statement
    body [a + b; add(2, 3)]; evaluating it, in any environment, yields the
    result list [[Nil]] and registers that definition: the call is not
    evaluated. *)
Theorem define_add_registers_only X ParseFloat n env :
  exists ast,
    ParseTokens ParseFloat (14 + n) spec.define_add = Ok ast
    /\ ast = ProgramNode [FunctionDefenitionNode "add"
                            [IdentifierNode "a"; IdentifierNode "b"]
                            [BinOpNode (IdentifierNode "a") ADD (IdentifierNode "b");
                             FunctionCallNode "add" [IntNode 2; IntNode 3]]]
    /\ Eval X (2 + n) ast env
       = (Ok (Program_ [Nil]), setFunction "add" spec.add_function env).
Proof.
  eexists. split; [apply parse_define_add|]. split; reflexivity.
Qed.

(** C8 fails on the unclosed call [f(1]: the identifier case of
    [parsePrefix] drops the error of [parseParameters], and [Parse] returns a
    program that holds an [ErrorNode], with no error. *)
Theorem unclosed_call_is_accepted ParseFloat n :
  ParseTokens ParseFloat (8 + n) spec.unclosed_call = Ok (ProgramNode [ErrorNode]).
Proof. vm_compute. reflexivity. Qed.

(** The sibling case: the unclosed array [[1] is a syntax error. *)
Lemma unclosed_array_is_rejected ParseFloat n :
  ParseTokens ParseFloat (8 + n) spec.unclosed_array
  = Err "SyntaxError: Unclosed parenthesis parseParameters()".
Proof. vm_compute. reflexivity. Qed.

(** ** Calls of user-defined functions *)

Lemma bindArguments_positional ev names arguments :
  forall i env environment values environment',
    (i + length arguments <= length names)%nat ->
    spec.evalArguments ev arguments environment = (Ok values, environment') ->
    bindArguments ev (map IdentifierNode names) i arguments env environment
    = (Ok (spec.withVariables
             (spec.bindPositional (drop i names) values (Variables env)) env),
       environment').
Proof.
  induction arguments as [|node arguments IH];
    intros i env environment values environment' Hlen H.
  - simpl in *. injection H as <- <-. unfold ret. f_equal.
    destruct (drop i names); destruct env; reflexivity.
  - simpl in *.
    destruct (lookup_lt_is_Some_2 names i ltac:(lia)) as [name Hname].
    rewrite list_lookup_fmap, Hname. simpl.
    unfold bind in *. destruct (ev node environment) as [[v| | |] e1]; try discriminate.
    destruct (spec.evalArguments ev arguments e1) as [[vs| | |] e2] eqn:Hvs;
      try discriminate.
    injection H as <- <-.
    rewrite (IH (S i) _ e1 vs e2) by (lia || assumption).
    f_equal. f_equal.
    rewrite (drop_S names name i Hname). reflexivity.
Qed.








(** The environment of a callee has no periodic table: reading a parameter
    in the body reaches the type assertion of [lookupElements] on a nil map,
    which panics.  Here [add(a, b) => a + b] is called as [add(2, 3)]. *)
Lemma parameter_read_panics :
  fst (Eval world.sample 6 (FunctionCallNode "add" [IntNode 2; IntNode 3])
         (setFunction "add"
            {| Identifier := "add";
               Parameters := [IdentifierNode "a"; IdentifierNode "b"];
               Consequence := [BinOpNode (IdentifierNode "a") ADD (IdentifierNode "b")] |}
            world.empty))
  = Panic interface_conversion.
Proof. vm_compute. reflexivity. Qed.

(** ** Resolution of identifiers *)






(** With no variable bound, the resolution fails. *)
Lemma identifier_empty_table X fuel a env e :
  Constants env !! a = None ->
  lookupElements a (PeriodicTable env) = Err e ->
  Variables env = ∅ ->
  Eval X (S fuel) (IdentifierNode a) env
  = (Err ("VarAccessError: Undefined variable identifier " ++ a), env).
Proof.
  intros Hc He Hv. simpl. unfold evalIdentifier. rewrite Hc, He, Hv.
  rewrite lookup_empty. reflexivity.
Qed.

(** Whatever the order in which the variables [ac] and [xab] are visited,
    the loop ends on [xab] for the name [ab]. *)
Lemma fuzzyLoop_ab_any_order (variables : list string) :
  Permutation ["ac"; "xab"] variables ->
  fuzzyLoop world.sample "ab" variables EmptyString float64.zero = Ok "xab".
Proof.
  intros H. apply Permutation_length_2_inv in H as [-> | ->]; vm_compute; reflexivity.
Qed.

(** C3 fails on the name [ab] against the variable [ac]: the shared prefix has
    length 1 of 2, the Levenshtein similarity is 1/2, and the score of the
    code is 1/4 where the formula of the claim gives 1/2.  With [ac = 1] and
    [xab = 2] bound, the formula ranks [ac] first, and the code answers with
    the value of [xab]. *)
Theorem similarity_drops_partial_prefix :
  similarity world.sample "ab" "ac" = Ok (float64.div (float64.of_int 1) (float64.of_int 4))
  /\ spec.score world.sample "ab" "ac" = float64.div (float64.of_int 1) (float64.of_int 2)
  /\ float64.ltb (spec.score world.sample "ab" "xab") (spec.score world.sample "ab" "ac") = true
  /\ Eval world.sample 1 (IdentifierNode "ab") spec.ac_xab
     = (Ok (Num (Integer 2)), spec.ac_xab).
Proof. repeat split; vm_compute; reflexivity. Qed.

(** C7 fails on the name [abc] when [xyz = 1] is the only variable: the name
    matches no constant and no element, a variable is bound, every score is
    0, and the value returned (with a nil error) is the nil object, not the
    value of a bound variable; an operation on it panics. *)
Theorem unrelated_name_resolves_to_nil :
  Constants spec.only_xyz !! "abc" = None
  /\ lookupElements "abc" (PeriodicTable spec.only_xyz)
     = Err "EvaluationError: Identifier undefined"
  /\ Variables spec.only_xyz <> ∅
  /\ similarity world.sample "abc" "xyz" = Ok float64.zero
  /\ Eval world.sample 1 (IdentifierNode "abc") spec.only_xyz = (Ok NoObject, spec.only_xyz)
  /\ fst (Eval world.sample 3 (BinOpNode (IdentifierNode "abc") ADD (IntNode 1))
            spec.only_xyz)
     = Panic nil_dereference.
Proof.
  split; [reflexivity|]. split; [reflexivity|].
  split; [intros H; apply (f_equal (fun m => m !! "xyz")) in H; discriminate H|].
  repeat split; vm_compute; reflexivity.
Qed.

(** ** Normalization of numeric results *)

(** *** Integers in binary64 *)

Lemma iter_pos_iter {A} (f : A -> A) n : forall x, SpecFloat.iter_pos f n x = Pos.iter f x n.
Proof.
  induction n as [n IH|n IH|]; intros x; simpl; rewrite ?IH; try reflexivity.
  now rewrite <- !Pos.iter_swap.
Qed.

Lemma digits2_pos_iter p k : digits2_pos (Pos.iter xO p k) = (digits2_pos p + k)%positive.
Proof.
  induction k as [|k IH] using Pos.peano_ind.
  - simpl. lia.
  - rewrite (Pos.iter_succ k _ xO). simpl. rewrite IH. lia.
Qed.

Lemma shr_1_exact p : shr_1 {| shr_m := Zpos p~0; shr_r := false; shr_s := false |}
                      = {| shr_m := Zpos p; shr_r := false; shr_s := false |}.
Proof. reflexivity. Qed.

Lemma shr_iter_exact p k :
  Pos.iter shr_1 {| shr_m := Zpos (Pos.iter xO p k); shr_r := false; shr_s := false |} k
  = {| shr_m := Zpos p; shr_r := false; shr_s := false |}.
Proof.
  induction k as [|k IH] using Pos.peano_ind.
  - reflexivity.
  - rewrite (Pos.iter_succ_r k _ shr_1), (Pos.iter_succ k _ xO). simpl shr_1. exact IH.
Qed.

Lemma shiftl_pos m k : Z.shiftl (Zpos m) (Zpos k) = Zpos (Pos.iter xO m k).
Proof. simpl. symmetry. apply (Pos.iter_swap_gen _ _ Zpos xO (Z.mul 2)). reflexivity. Qed.

Lemma shiftr_iter m k : Z.shiftr (Zpos (Pos.iter xO m k)) (Zpos k) = Zpos m.
Proof.
  rewrite <- shiftl_pos. rewrite Z.shiftr_shiftl_l by lia. now rewrite Z.sub_diag.
Qed.

Lemma binary_round_aux_exact s m e :
  bounded float64.prec float64.emax m e = true ->
  binary_round_aux float64.prec float64.emax s (Zpos m) e loc_Exact = S754_finite s m e.
Proof.
  unfold bounded, canonical_mantissa. intros H.
  apply andb_prop in H as [Hc He]. apply Z.eqb_eq in Hc.
  unfold binary_round_aux, shr_fexp. cbn [Zdigits2 shr_record_of_loc].
  rewrite Hc, Z.sub_diag. cbn [shr shr_m loc_of_shr_record round_nearest_even Zdigits2 shr_record_of_loc].
  rewrite Hc, Z.sub_diag. cbn [shr shr_m]. now rewrite He.
Qed.

Lemma low_bits_zero m k :
  Z.land (Zpos m) (Z.ones (Zpos k)) = 0 -> exists m0, m = Pos.iter xO m0 k.
Proof.
  intros H. rewrite Z.land_ones in H by lia.
  exists (Z.to_pos (Zpos m / 2 ^ Zpos k)).
  assert (Hdiv : Zpos m = 2 ^ Zpos k * (Zpos m / 2 ^ Zpos k)).
  { rewrite (Z.div_mod (Zpos m) (2 ^ Zpos k)) at 1 by lia. lia. }
  assert (Hpos : 0 < Zpos m / 2 ^ Zpos k).
  { assert (0 < 2 ^ Zpos k) by lia. nia. }
  apply Pos2Z.inj. rewrite <- shiftl_pos, Z.shiftl_mul_pow2 by lia.
  rewrite Z2Pos.id by exact Hpos. lia.
Qed.

Lemma binary_round_shifted s m e :
  bounded float64.prec float64.emax m e = true ->
  match e with
  | Z0 => binary_round float64.prec float64.emax s m 0 = S754_finite s m e
  | Zpos k => binary_round float64.prec float64.emax s (Pos.iter xO m k) 0 = S754_finite s m e
  | Zneg k => forall m0, m = Pos.iter xO m0 k ->
              binary_round float64.prec float64.emax s m0 0 = S754_finite s m e
  end.
Proof.
  intros Hb. pose proof Hb as Hb'. unfold bounded, canonical_mantissa in Hb'.
  apply andb_prop in Hb' as [Hc He]. apply Z.eqb_eq in Hc.
  destruct e as [|k|k].
  - unfold binary_round. rewrite Hc. cbn [shl_align Z.sub Z.add Z.opp].
    now apply binary_round_aux_exact.
  - unfold binary_round. rewrite digits2_pos_iter, Z.add_0_r.
    replace (Zpos (digits2_pos m + k)) with (Zpos (digits2_pos m) + Zpos k) by lia.
    rewrite Hc. unfold shl_align. rewrite Z.sub_0_r.
    unfold binary_round_aux, shr_fexp. cbn [Zdigits2 shr_record_of_loc].
    rewrite digits2_pos_iter, Z.add_0_r.
    replace (Zpos (digits2_pos m + k)) with (Zpos (digits2_pos m) + Zpos k) by lia.
    rewrite Hc, Z.sub_0_r. cbn [shr]. rewrite iter_pos_iter, shr_iter_exact.
    cbn [shr_m loc_of_shr_record round_nearest_even Zdigits2 shr_record_of_loc].
    rewrite Z.add_0_l, Hc, Z.sub_diag. cbn [shr shr_m]. now rewrite He.
  - intros m0 ->. unfold binary_round.
    rewrite digits2_pos_iter in Hc.
    replace (Zpos (digits2_pos m0 + k) + Zneg k) with (Zpos (digits2_pos m0)) in Hc by lia.
    rewrite Z.add_0_r, Hc. unfold shl_align. rewrite Z.sub_0_r.
    now apply binary_round_aux_exact.
Qed.

Lemma of_int_trunc f :
  float64.valid f = true -> spec.integral f = true ->
  match f with
  | S754_finite _ _ _ => float64.of_int (float64.trunc f) = f
  | _ => True
  end.
Proof.
  destruct f as [s|s| |s m e]; try exact (fun _ _ => I).
  unfold float64.valid, valid_binary. intros Hb Hi.
  pose proof (binary_round_shifted s m e Hb) as H.
  unfold float64.of_int, float64.trunc.
  destruct e as [|k|k].
  - destruct s; exact H.
  - rewrite shiftl_pos. destruct s; exact H.
  - simpl in Hi. apply Z.eqb_eq in Hi. destruct (low_bits_zero m k Hi) as [m0 Hm0].
    rewrite Hm0 at 1. rewrite shiftr_iter. destruct s; exact (H m0 Hm0).
Qed.

Lemma eqb_finite_eq x s m e :
  float64.eqb x (S754_finite s m e) = true -> x = S754_finite s m e.
Proof.
  unfold float64.eqb, SFeqb.
  destruct x as [sx|sx| |sx mx ex]; simpl; try (destruct s; discriminate);
    try (destruct sx; discriminate); try (destruct sx, s; discriminate).
  destruct sx, s; try discriminate;
    destruct (Z.compare_spec ex e) as [->|?|?]; try discriminate;
    destruct (Pos.compare_cont Eq mx m) eqn:Hm; try discriminate;
    apply Pos.compare_eq in Hm; now subst.
Qed.

Lemma eqb_finite_refl s m e : float64.eqb (S754_finite s m e) (S754_finite s m e) = true.
Proof.
  unfold float64.eqb, SFeqb. simpl.
  destruct s; rewrite Z.compare_refl, Pos.compare_cont_refl; reflexivity.
Qed.

Lemma shr_exponent mrs e n : e <= snd (shr mrs e n).
Proof. destruct n; simpl; lia. Qed.

Lemma binary_round_aux_exponent s mx ex lx :
  0 <= ex ->
  match binary_round_aux float64.prec float64.emax s mx ex lx with
  | S754_finite _ _ e => 0 <= e
  | _ => True
  end.
Proof.
  intros Hex. unfold binary_round_aux, shr_fexp.
  match goal with |- context [shr ?r ex ?n] =>
    pose proof (shr_exponent r ex n) as H1; destruct (shr r ex n) as [mrs' e'] end.
  match goal with |- context [shr ?r e' ?n] =>
    pose proof (shr_exponent r e' n) as H2; destruct (shr r e' n) as [mrs'' e''] end.
  simpl in *. destruct (shr_m mrs''); try exact I.
  destruct (e'' <=? float64.emax - float64.prec); [lia|exact I].
Qed.

Lemma land_iter_ones p k : Z.land (Zpos (Pos.iter xO p k)) (Z.ones (Zpos k)) = 0.
Proof.
  rewrite Z.land_ones by lia. rewrite <- shiftl_pos, Z.shiftl_mul_pow2 by lia.
  apply Z.mod_mul. lia.
Qed.

Lemma binary_round_integral s p :
  match binary_round float64.prec float64.emax s p 0 with
  | S754_finite s' m e => spec.integral (S754_finite s' m e) = true
  | _ => True
  end.
Proof.
  unfold binary_round. rewrite Z.add_0_r.
  destruct (Z_lt_le_dec (Zpos (digits2_pos p)) float64.prec) as [Hlt|Hge].
  - assert (Hf : fexp float64.prec float64.emax (Zpos (digits2_pos p))
                 = Zneg (Z.to_pos (float64.prec - Zpos (digits2_pos p)))).
    { unfold fexp, emin, float64.prec, float64.emax in *. lia. }
    rewrite Hf. unfold shl_align. rewrite Z.sub_0_r.
    rewrite binary_round_aux_exact.
    + simpl. now rewrite land_iter_ones.
    + unfold bounded, canonical_mantissa. rewrite digits2_pos_iter.
      apply andb_true_intro. split; [apply Z.eqb_eq|apply Z.leb_le].
      * rewrite <- Hf at 2. f_equal. lia.
      * unfold float64.prec, float64.emax. lia.
  - assert (Hf : 0 <= fexp float64.prec float64.emax (Zpos (digits2_pos p))).
    { unfold fexp, emin, float64.prec, float64.emax in *. lia. }
    unfold shl_align. rewrite Z.sub_0_r.
    destruct (fexp float64.prec float64.emax (Zpos (digits2_pos p))) eqn:E; try lia;
      (pose proof (binary_round_aux_exponent s (Zpos p) 0 loc_Exact (Z.le_refl 0)) as H;
       destruct (binary_round_aux float64.prec float64.emax s (Zpos p) 0 loc_Exact)
         as [| | |s' m e]; try exact I; destruct e; try reflexivity; lia).
Qed.

Lemma of_int_integral z :
  match float64.of_int z with
  | S754_finite s m e => spec.integral (S754_finite s m e) = true
  | _ => True
  end.
Proof.
  unfold float64.of_int, binary_normalize. destruct z; [exact I| |]; apply binary_round_integral.
Qed.

Lemma eqb_nan x : float64.eqb x S754_nan = false.
Proof. destruct x; reflexivity. Qed.

Lemma formatFloat_cases f :
  (float64.eqb (float64.of_int (float64.to_int f)) f = true
   /\ formatFloat f = Integer (float64.to_int f))
  \/ (float64.eqb (float64.of_int (float64.to_int f)) f = false
      /\ formatFloat f = Float (spec.rounded f)).
Proof.
  unfold formatFloat, spec.rounded.
  destruct (float64.eqb (float64.of_int (float64.to_int f)) f); [left|right]; split; reflexivity.
Qed.

Lemma formatFloat_integral f :
  float64.valid f = true -> spec.integral f = true -> int64.in_range (float64.trunc f) = true ->
  formatFloat f = Integer (float64.trunc f)
  /\ float64.eqb (Inspect (formatFloat f)) f = true.
Proof.
  intros Hv Hi Hr. pose proof (of_int_trunc f Hv Hi) as Ht.
  destruct f as [s|s| |s m e]; try discriminate.
  - split; [reflexivity|]. destruct s; reflexivity.
  - assert (Hto : float64.to_int (S754_finite s m e) = float64.trunc (S754_finite s m e)).
    { unfold float64.to_int. now rewrite Hr. }
    assert (Hf : formatFloat (S754_finite s m e) = Integer (float64.trunc (S754_finite s m e))).
    { unfold formatFloat. rewrite Hto, Ht, eqb_finite_refl. reflexivity. }
    split; [exact Hf|]. rewrite Hf. cbn [Inspect]. rewrite Ht. apply eqb_finite_refl.
Qed.

Lemma formatFloat_Integer_inv f z :
  formatFloat f = Integer z ->
  spec.integral f = true /\ int64.in_range (float64.trunc f) = true /\ z = float64.trunc f
  /\ formatFloat (Inspect (Integer z)) = Integer z.
Proof.
  intros H. destruct (formatFloat_cases f) as [[He Hf]|[_ Hf]]; rewrite Hf in H; [|discriminate].
  injection H as <-.
  destruct f as [s|s| |s m e].
  - repeat split; reflexivity.
  - destruct s; discriminate He.
  - now rewrite eqb_nan in He.
  - apply eqb_finite_eq in He.
    pose proof (of_int_integral (float64.to_int (S754_finite s m e))) as Hint.
    rewrite He in Hint.
    assert (Hr : int64.in_range (float64.trunc (S754_finite s m e)) = true).
    { destruct (int64.in_range (float64.trunc (S754_finite s m e))) eqn:Hr; [reflexivity|].
      exfalso. unfold float64.to_int in He. rewrite Hr in He.
      rewrite <- He in Hr. vm_compute in Hr. discriminate Hr. }
    assert (Hz : float64.to_int (S754_finite s m e) = float64.trunc (S754_finite s m e)).
    { unfold float64.to_int. now rewrite Hr. }
    repeat split; try assumption.
    cbn [Inspect]. rewrite He. unfold formatFloat. now rewrite He, eqb_finite_refl.
Qed.

(** *** The normalization *)

(** C9, as stated, fails.  The normalized 0.999999 is the Float 1, and
    normalizing that gives the Integer 1; the normalized 39299791343.408485
    is a Float with a fractional part, and normalizing it again gives the
    next Float up; 2^70 has no fractional part and is kept a Float. *)
Lemma formatFloat_counterexample :
  formatFloat spec.almost_one = Float (float64.of_int 1)
  /\ formatFloat (Inspect (formatFloat spec.almost_one)) = Integer 1
  /\ float64.valid spec.drifting = true
  /\ formatFloat spec.drifting = Float spec.drifting1
  /\ spec.integral spec.drifting1 = false
  /\ formatFloat (Inspect (formatFloat spec.drifting)) = Float spec.drifting2
  /\ float64.eqb spec.drifting1 spec.drifting2 = false
  /\ spec.integral (float64.of_int (2 ^ 70)) = true
  /\ formatFloat (float64.of_int (2 ^ 70)) = Float (float64.of_int (2 ^ 70)).
Proof. repeat split; vm_compute; reflexivity. Qed.

(** C9, amended.  The normalization maps every value that has no fractional
    part and lies in the range of the 64-bit [int] to the Integer of that
    value, whose magnitude is the value itself; it maps every other value to
    the Float [round(value * 100000) / 100000]; and normalizing the magnitude
    of an Integer result gives that Integer again. *)
Theorem formatFloat_normalizes (f : float64) :
  (float64.valid f = true -> spec.integral f = true ->
   int64.in_range (float64.trunc f) = true ->
   formatFloat f = Integer (float64.trunc f)
   /\ float64.eqb (Inspect (formatFloat f)) f = true)
  /\ ((spec.integral f && int64.in_range (float64.trunc f))%bool = false ->
      formatFloat f = Float (spec.rounded f))
  /\ (forall z, formatFloat f = Integer z ->
      formatFloat (Inspect (Integer z)) = Integer z).
Proof.
  split; [apply formatFloat_integral|]. split.
  - intros H. destruct (formatFloat_cases f) as [[_ Hf]|[_ Hf]]; [|exact Hf].
    destruct (formatFloat_Integer_inv f _ Hf) as (Hi & Hr & _).
    rewrite Hi, Hr in H. discriminate H.
  - intros z Hz. now destruct (formatFloat_Integer_inv f z Hz) as (_ & _ & _ & H).
Qed.

(** 7 is normalized to the Integer 7, 2.5 to the Float 2.5, and the magnitude
    of the Integer 7 to the Integer 7. *)
Lemma formatFloat_normalizes_witness :
  formatFloat (float64.of_int 7) = Integer 7
  /\ formatFloat (float64.div (float64.of_int 5) (float64.of_int 2))
     = Float (float64.div (float64.of_int 5) (float64.of_int 2))
  /\ formatFloat (Inspect (Integer 7)) = Integer 7.
Proof.
  destruct (formatFloat_normalizes (float64.of_int 7)) as (Hint & _ & Hidem).
  destruct (formatFloat_normalizes (float64.div (float64.of_int 5) (float64.of_int 2)))
    as (_ & Hfloat & _).
  split; [apply Hint; reflexivity|].
  split; [rewrite Hfloat; reflexivity|].
  apply Hidem. apply Hint; reflexivity.
Defined.

(* ===================================================================== *)
(** * Further properties of the parser *)
(* ===================================================================== *)

Lemma keeps_unchanged {A} (m : P A) :
  (forall p, snd (m p) = p) -> spec.keepsInput m.
Proof.
  intros H p r p' E. pose proof (H p) as Hp. rewrite E in Hp. simpl in Hp. subst p'.
  repeat split; auto.
Qed.

Lemma keeps_ret {A} (a : A) : spec.keepsInput (ret a).
Proof. now apply keeps_unchanged. Qed.
Lemma keeps_fail {A} e : spec.keepsInput (@fail Parser A e).
Proof. now apply keeps_unchanged. Qed.
Lemma keeps_lift {A} (r : result A) : spec.keepsInput (lift r).
Proof. now apply keeps_unchanged. Qed.
Lemma keeps_outOfFuel {A} : spec.keepsInput (@parser.outOfFuel A).
Proof. now apply keeps_unchanged. Qed.
Lemma keeps_cur : spec.keepsInput cur.
Proof. now apply keeps_unchanged. Qed.
Lemma keeps_peekToken : spec.keepsInput peekToken.
Proof.
  apply keeps_unchanged. intros p. unfold peekToken.
  destruct (_ <=? _)%nat; [reflexivity|]. now destruct (tokens p !! _).
Qed.

Lemma keeps_advance : spec.keepsInput advance.
Proof.
  intros p r p'. unfold advance.
  destruct (tokens p !! S (position p)) as [t|] eqn:E; intros H; injection H as <- <-; simpl.
  - repeat split; [lia|]. intros _ _. exact E.
  - repeat split; [lia|]. intros _ H. now destruct (H index_out_of_range).
Qed.

Lemma keeps_bind {A B} (m : P A) (k : A -> P B) :
  spec.keepsInput m -> (forall a, spec.keepsInput (k a)) -> spec.keepsInput (bind m k).
Proof.
  intros Hm Hk p r p'. unfold bind. destruct (m p) as [[a|e|w|] p1] eqn:E; intros H;
    destruct (Hm p _ _ E) as (Ht & Hp & Hc).
  - destruct (Hk a p1 _ _ H) as (Ht' & Hp' & Hc').
    split; [congruence|]. split; [lia|]. intros C N. apply Hc'; [|exact N].
    apply Hc; [exact C|intros ?; discriminate].
  - injection H as <- <-. split; [exact Ht|split; [exact Hp|]].
    intros C _. apply Hc; [exact C|intros ?; discriminate].
  - injection H as <- <-. split; [exact Ht|split; [exact Hp|]].
    intros _ N. now destruct (N w).
  - injection H as <- <-. split; [exact Ht|split; [exact Hp|]].
    intros C _. apply Hc; [exact C|intros ?; discriminate].
Qed.

Lemma keeps_catch {A} (m : P A) : spec.keepsInput m -> spec.keepsInput (catch m).
Proof.
  intros Hm p r p'. unfold catch. destruct (m p) as [[a|e|w|] p1] eqn:E; intros H;
    destruct (Hm p _ _ E) as (Ht & Hp & Hc); injection H as <- <-;
    (split; [exact Ht|split; [exact Hp|]]); intros C N.
  - apply Hc; [exact C|intros ?; discriminate].
  - apply Hc; [exact C|intros ?; discriminate].
  - now destruct (N w).
  - apply Hc; [exact C|intros ?; discriminate].
Qed.

Ltac keeps_step :=
  match goal with
  | |- spec.keepsInput (bind _ _) => apply keeps_bind; [|intros ?]
  | |- spec.keepsInput (catch _) => apply keeps_catch
  | |- spec.keepsInput (ret _) => apply keeps_ret
  | |- spec.keepsInput (fail _) => apply keeps_fail
  | |- spec.keepsInput (lift _) => apply keeps_lift
  | |- spec.keepsInput parser.outOfFuel => apply keeps_outOfFuel
  | |- spec.keepsInput cur => apply keeps_cur
  | |- spec.keepsInput peekToken => apply keeps_peekToken
  | |- spec.keepsInput advance => apply keeps_advance
  | |- spec.keepsInput (if ?c then _ else _) => destruct c
  | |- spec.keepsInput (match ?x with _ => _ end) => destruct x
  end.

Lemma keeps_unitSuffix node : spec.keepsInput (unitSuffix node).
Proof. unfold unitSuffix. repeat keeps_step. Qed.

Lemma parser_keeps pf fuel : spec.allKeep pf fuel.
Proof.
  induction fuel as [|fuel IH].
  - unfold spec.allKeep. repeat apply conj; intros; apply keeps_outOfFuel.
  - destruct IH as (H1 & H2 & H3 & H4 & H5 & H6 & H7 & H8 & H9 & H10).
    unfold spec.allKeep. repeat apply conj; intros; cbn;
      repeat (first [keeps_step | apply keeps_unitSuffix | solve [auto]]).
Qed.

Lemma ParseLoop_keeps pf fuel : forall ast, spec.keepsInput (ParseLoop pf fuel ast).
Proof.
  induction fuel as [|fuel IH]; intros ast; cbn.
  - apply keeps_outOfFuel.
  - destruct (parser_keeps pf fuel) as (H1 & _).
    repeat (first [keeps_step | solve [auto]]).
Qed.

Lemma bind_Ok {S A B} (m : M S A) (k : A -> M S B) s b s' :
  bind m k s = (Ok b, s') -> exists a s1, m s = (Ok a, s1) /\ k a s1 = (Ok b, s').
Proof.
  unfold bind. destruct (m s) as [[a| | |] s1]; try discriminate. intros H. eauto.
Qed.

Lemma ParseLoop_ends_on_EOF pf fuel : forall ast p node p',
  ParseLoop pf fuel ast p = (Ok node, p') ->
  Type_ (token p') = EOF /\ exists nodes, node = ProgramNode (ast ++ nodes).
Proof.
  induction fuel as [|fuel IH]; intros ast p node p'; cbn; [discriminate|].
  destruct (Type_ (token p) =? EOF)%string eqn:E.
  - intros H. injection H as <- <-. apply String.eqb_eq in E. split; [exact E|].
    exists []. now rewrite app_nil_r.
  - intros H. apply bind_Ok in H as (u & p1 & _ & H).
    apply bind_Ok in H as (n & p2 & _ & H).
    destruct (IH _ _ _ _ H) as (HE & nodes & ->). split; [exact HE|].
    exists (n :: nodes). now rewrite <- app_assoc.
Qed.

(** Whatever [Parse] returns (a program, an error or a panic), it has kept
    the token list, it has not moved backwards, and unless it panicked the
    current token is the token at the current position. *)
Theorem Parse_keeps_input pf fuel p r p' :
  Parse pf fuel p = (r, p') ->
  tokens p' = tokens p
  /\ (position p <= position p')%nat
  /\ (spec.consistent p -> (forall why, r <> Panic why) -> spec.consistent p').
Proof. apply (ParseLoop_keeps pf fuel []). Qed.

(** [Parse] returns a program only when it has reached an end-of-file token
    of its input: a token sequence without one is never parsed into a
    program. *)
Theorem Parse_ok_reaches_EOF pf fuel toks ast :
  ParseTokens pf fuel toks = Ok ast ->
  (exists nodes, ast = ProgramNode nodes)
  /\ exists i t, toks !! i = Some t /\ Type_ t = EOF.
Proof.
  unfold ParseTokens, NewParser.
  destruct (toks !! 0%nat) as [t0|] eqn:E0; [|discriminate].
  set (p := {| tokens := toks; token := t0; position := 0 |}).
  destruct (Parse pf fuel p) as [r p'] eqn:EP. simpl. intros ->.
  destruct (ParseLoop_ends_on_EOF pf fuel [] p ast p' EP) as (HE & nodes & ->).
  destruct (Parse_keeps_input pf fuel p _ p' EP) as (Ht & _ & Hc).
  split; [now exists nodes|].
  exists (position p'), (token p'). split; [|exact HE].
  assert (C : spec.consistent p') by (apply Hc; [exact E0|intros ?; discriminate]).
  unfold spec.consistent in C. now rewrite Ht in C.
Qed.

Lemma parseParametersLoop_ends pf fuel terminate : forall parameters p r p',
  parseParametersLoop pf fuel terminate parameters p = (Ok r, p') ->
  Type_ (token p') = terminate.
Proof.
  induction fuel as [|fuel IH]; intros parameters p r p'; cbn; [discriminate|].
  destruct (Type_ (token p) =? terminate)%string eqn:E.
  - intros H. injection H as <- <-. now apply String.eqb_eq.
  - destruct (_ || _); [discriminate|].
    destruct (negb _); intros H; apply bind_Ok in H as (a & p1 & _ & H); eauto.
Qed.

(** After a successful [parseParameters] the parser stands on the terminator
    asked for, or on a right parenthesis met first, with no parameter read
    (so that the empty array may also be closed by a right parenthesis). *)
Theorem parseParameters_stands_on_terminator pf fuel terminate p r p' :
  parseParameters pf fuel terminate p = (Ok r, p') ->
  Type_ (token p') = terminate \/ (Type_ (token p') = RPAREN /\ r = []).
Proof.
  destruct fuel as [|fuel]; cbn; [discriminate|].
  intros H. apply bind_Ok in H as (t & p1 & Ha & H). cbn in H.
  destruct (Type_ (token p1) =? RPAREN)%string eqn:E.
  - injection H as <- <-. right. split; [now apply String.eqb_eq|reflexivity].
  - left. eapply parseParametersLoop_ends; eassumption.
Qed.

(** A node that [parseInfix] returns is a binary operation on the given left
    operand, the current token was an infix operator, and the operation
    recorded is never [ARROW]: an arrow is recorded as [IN]. *)
Theorem parseInfix_shape pf fuel left operation p node p' :
  parseInfix pf fuel left operation p = (Ok node, p') ->
  contains infixOperators (Type_ (token p)) = true
  /\ exists right, node = BinOpNode left (spec.normalized operation) right
                   /\ spec.normalized operation <> ARROW.
Proof.
  destruct fuel as [|fuel]; cbn -[contains]; [discriminate|].
  destruct (contains infixOperators (Type_ (token p))); cbn; [|discriminate].
  intros H. apply bind_Ok in H as (t & p1 & _ & H).
  apply bind_Ok in H as (right & p2 & _ & H). injection H as <- <-.
  split; [reflexivity|]. exists right. split; [reflexivity|].
  unfold spec.normalized. destruct (String.eqb_spec operation ARROW); [unfold IN, ARROW; discriminate|assumption].
Qed.

(** On a token that is not an infix operator, [parseInfix] fails with a syntax
    error that carries the literal of the token, and consumes nothing. *)
Theorem parseInfix_rejects pf fuel left operation p :
  contains infixOperators (Type_ (token p)) = false ->
  parseInfix pf (S fuel) left operation p
  = (Err ("SyntaxError: parseInfix() unsupported opperator:" ++ Literal (token p)), p).
Proof. intros H. cbn -[contains]. now rewrite H. Qed.

(** Grouping of [x op1 y op2 z] for any two infix operators: the second
    operation is nested on the right when its binding power is strictly
    higher than that of the first, and the first is nested on the left
    otherwise; operators of equal power, [^] included, group to the left. *)
Theorem precedence_of_two_operators ParseFloat n x op1 l1 y op2 l2 z :
  In op1 infixOperators -> In op2 infixOperators ->
  ParseTokens ParseFloat (10 + n) (spec.twoOperators x op1 l1 y op2 l2 z)
  = Ok (ProgramNode
          [if preference op1 <? preference op2 then
             BinOpNode (IdentifierNode x) (spec.normalized op1)
                       (BinOpNode (IdentifierNode y) (spec.normalized op2) (IdentifierNode z))
           else
             BinOpNode (BinOpNode (IdentifierNode x) (spec.normalized op1) (IdentifierNode y))
                       (spec.normalized op2) (IdentifierNode z)]).
Proof.
  unfold infixOperators. simpl In. intros H1 H2.
  repeat (destruct H1 as [<- | H1]; [|]); try (destruct H1);
  repeat (destruct H2 as [<- | H2]; [|]); try (destruct H2); vm_compute; reflexivity.
Qed.

(** *** Instances *)

Lemma Parse_keeps_input_witness :
  let p := {| tokens := spec.unclosed_array; token := spec.tk LSQUARE "[";
              position := 0 |} in
  let p' := {| tokens := spec.unclosed_array; token := spec.tk EOF EmptyString;
               position := 2 |} in
  tokens p' = tokens p
  /\ (position p <= position p')%nat
  /\ (spec.consistent p ->
      (forall why, Err "SyntaxError: Unclosed parenthesis parseParameters()" <> Panic why :> result Node) ->
      spec.consistent p').
Proof.
  intros p p'.
  apply (Parse_keeps_input (fun _ => Err "unused") 8 p
           (Err "SyntaxError: Unclosed parenthesis parseParameters()") p').
  vm_compute. reflexivity.
Defined.

Lemma Parse_ok_reaches_EOF_witness :
  (exists nodes, ProgramNode [ErrorNode] = ProgramNode nodes)
  /\ exists i t, spec.unclosed_call !! i = Some t /\ Type_ t = EOF.
Proof.
  apply (Parse_ok_reaches_EOF (fun _ => Err "unused") 8 spec.unclosed_call
           (ProgramNode [ErrorNode])).
  vm_compute. reflexivity.
Defined.

(** [[ )]: the list of an array closed by a right parenthesis. *)
Lemma parseParameters_stands_on_terminator_witness :
  let p := {| tokens := [spec.tk LSQUARE "["; spec.tk RPAREN ")"; spec.tk EOF EmptyString];
              token := spec.tk LSQUARE "["; position := 0 |} in
  let p' := {| tokens := tokens p; token := spec.tk RPAREN ")"; position := 1 |} in
  Type_ (token p') = RSQUARE \/ (Type_ (token p') = RPAREN /\ @nil Node = []).
Proof.
  intros p p'.
  apply (parseParameters_stands_on_terminator (fun _ => Err "unused") 3 RSQUARE p [] p').
  vm_compute. reflexivity.
Defined.

(** [x => y], read from the arrow on. *)
Lemma parseInfix_shape_witness :
  let p := {| tokens := [spec.tk IDENTIFIER "x"; spec.tk ARROW "=>";
                         spec.tk IDENTIFIER "y"; spec.tk EOF EmptyString];
              token := spec.tk ARROW "=>"; position := 1 |} in
  contains infixOperators (Type_ (token p)) = true
  /\ exists right,
      BinOpNode (IdentifierNode "x") IN (IdentifierNode "y")
      = BinOpNode (IdentifierNode "x") (spec.normalized ARROW) right
      /\ spec.normalized ARROW <> ARROW.
Proof.
  intros p.
  apply (parseInfix_shape (fun _ => Err "unused") 4 (IdentifierNode "x") ARROW p
           (BinOpNode (IdentifierNode "x") IN (IdentifierNode "y"))
           {| tokens := tokens p; token := spec.tk EOF EmptyString; position := 3 |}).
  vm_compute. reflexivity.
Defined.

(** [x = y], read from the equals sign on. *)
Lemma parseInfix_rejects_witness :
  let p := {| tokens := [spec.tk IDENTIFIER "x"; spec.tk EQ "=";
                         spec.tk IDENTIFIER "y"; spec.tk EOF EmptyString];
              token := spec.tk EQ "="; position := 1 |} in
  parseInfix (fun _ => Err "unused") 1 (IdentifierNode "x") EQ p
  = (Err "SyntaxError: parseInfix() unsupported opperator:=", p).
Proof.
  intros p. apply (parseInfix_rejects (fun _ => Err "unused") 0 (IdentifierNode "x") EQ p).
  reflexivity.
Defined.

(** [a + b * c] and [a ^ b ^ c]. *)
Lemma precedence_of_two_operators_witness :
  ParseTokens (fun _ => Err "unused") 10 (spec.twoOperators "a" ADD "+" "b" MUL "*" "c")
  = Ok (ProgramNode
          [BinOpNode (IdentifierNode "a") ADD
                     (BinOpNode (IdentifierNode "b") MUL (IdentifierNode "c"))])
  /\ ParseTokens (fun _ => Err "unused") 10 (spec.twoOperators "a" POW "^" "b" POW "^" "c")
     = Ok (ProgramNode
             [BinOpNode (BinOpNode (IdentifierNode "a") POW (IdentifierNode "b"))
                        POW (IdentifierNode "c")]).
Proof.
  split.
  - apply (precedence_of_two_operators (fun _ => Err "unused") 0 "a" ADD "+" "b" MUL "*" "c");
      simpl; tauto.
  - apply (precedence_of_two_operators (fun _ => Err "unused") 0 "a" POW "^" "b" POW "^" "c");
      simpl; tauto.
Defined.

(* ===================================================================== *)
(** * Further properties of the evaluator *)
(* ===================================================================== *)

Lemma evalNodes_shape ev Nodes : forall Objects env v env',
  evalNodes ev Nodes Objects env = (Ok v, env') ->
  exists results, v = Program_ (Objects ++ results) /\ length results = length Nodes.
Proof.
  induction Nodes as [|node Nodes IH]; intros Objects env v env' H; simpl in H.
  - injection H as <- <-. exists []. now rewrite app_nil_r.
  - apply bind_Ok in H as (a & env1 & _ & H).
    destruct (IH _ _ _ _ H) as (results & -> & Hl).
    exists (a :: results). split; [now rewrite <- app_assoc|simpl; lia].
Qed.

Lemma evalNodes_app ev pre post : forall Objects env results env1,
  evalNodes ev pre Objects env = (Ok (Program_ results), env1) ->
  evalNodes ev (pre ++ post) Objects env = evalNodes ev post results env1.
Proof.
  induction pre as [|node pre IH]; intros Objects env results env1 H; simpl in *.
  - now injection H as <- <-.
  - unfold bind in *. destruct (ev node env) as [[a| | |] e1]; try discriminate.
    now apply IH.
Qed.

(** A program that evaluates without error yields a [Program] object
    with exactly one result for each of its statements. *)
Theorem program_one_result_per_statement X fuel Nodes env v env' :
  Eval X fuel (ProgramNode Nodes) env = (Ok v, env') ->
  exists results, v = Program_ results /\ length results = length Nodes.
Proof.
  destruct fuel as [|fuel]; [discriminate|]. cbn [Eval]. intros H.
  destruct (evalNodes_shape _ _ _ _ _ _ H) as (results & -> & Hl). now exists results.
Qed.

(** A program stops at the first statement that fails: when the
    statements before it evaluate and it returns an error, the program
    returns that error, whatever follows; the statements that follow are
    not evaluated (the environment is the one the failing statement
    left). *)
Theorem program_stops_at_first_error X fuel pre node post env results env1 e env2 :
  Eval X (S fuel) (ProgramNode pre) env = (Ok (Program_ results), env1) ->
  Eval X fuel node env1 = (Err e, env2) ->
  Eval X (S fuel) (ProgramNode (pre ++ node :: post)) env = (Err e, env2).
Proof.
  cbn [Eval]. intros Hpre Hnode.
  rewrite (evalNodes_app _ pre (node :: post) [] env results env1 Hpre).
  simpl. unfold bind. now rewrite Hnode.
Qed.


(** A constant or an element shadows a variable of the same name: the
    assignment [x = e] succeeds and binds the variable, but a read of [x]
    right after it returns the constant, or the atomic mass of the element,
    not the value assigned. *)
Theorem assigned_name_is_shadowed X fuel x expression env v env1 :
  Eval X fuel expression env = (Ok v, env1) ->
  (forall c, Constants env1 !! x = Some c ->
     Eval X (S (S fuel)) (ProgramNode [AssignNode x expression; IdentifierNode x]) env
     = (Ok (Program_ [Nil; c]), setVariable x v env1))
  /\ (forall element, Constants env1 !! x = None ->
     lookupElements x (PeriodicTable env1) = Ok element ->
     Eval X (S (S fuel)) (ProgramNode [AssignNode x expression; IdentifierNode x]) env
     = (Ok (Program_ [Nil; Num (formatFloat (atomic_mass element))]), setVariable x v env1)).
Proof.
  intros He.
  assert (Ha : Eval X (S fuel) (AssignNode x expression) env = (Ok Nil, setVariable x v env1)).
  { cbn [Eval]. unfold bind, getState, putState. now rewrite He. }
  change (Eval X (S (S fuel)) (ProgramNode [AssignNode x expression; IdentifierNode x]))
    with (evalNodes (Eval X (S fuel)) [AssignNode x expression; IdentifierNode x] []).
  cbn [evalNodes]. unfold bind at 1 3. rewrite Ha. unfold bind.
  cbn [Eval]. unfold evalIdentifier. cbn [Constants PeriodicTable Variables setVariable].
  split.
  - intros c ->. reflexivity.
  - intros element -> ->. reflexivity.
Qed.

(** [lookupElements] returns the first element of the table whose
    symbol is the identifier or whose name equals it up to case, and fails
    with "Identifier undefined" exactly when no element of the table
    matches. *)
Theorem lookupElements_first_match elementIdentifier elements :
  match lookupElements elementIdentifier (Some elements) with
  | Ok element =>
      exists before after,
        elements = (before ++ element :: after)%list
        /\ spec.matchesElement elementIdentifier element
        /\ Forall (fun e => ~ spec.matchesElement elementIdentifier e) before
  | Err e =>
      e = "EvaluationError: Identifier undefined"
      /\ Forall (fun e => ~ spec.matchesElement elementIdentifier e) elements
  | _ => False
  end.
Proof.
  simpl. induction elements as [|el elements IH]; simpl.
  - split; [reflexivity|constructor].
  - destruct (String.eqb_spec (symbol el) elementIdentifier) as [Hs|Hs].
    + exists [], elements. repeat split; [now left|constructor].
    + destruct (strings_.EqualFold (name el) elementIdentifier) eqn:Hn.
      * exists [], elements. repeat split; [now right|constructor].
      * assert (Hno : ~ spec.matchesElement elementIdentifier el).
        { intros [H|H]; [contradiction|congruence]. }
        destruct (lookupElementsLoop elementIdentifier elements) as [found|e| |].
        -- destruct IH as (before & after & -> & Hm & Hb).
           exists (el :: before), after. repeat split; [exact Hm|now constructor].
        -- destruct IH as (-> & Hall). split; [reflexivity|now constructor].
        -- exact IH.
        -- exact IH.
Qed.

Lemma extends_refl env : spec.extends env env.
Proof. repeat split; reflexivity. Qed.

Lemma extends_trans a b c : spec.extends a b -> spec.extends b c -> spec.extends a c.
Proof.
  intros (H1 & H2 & H3 & H4) (G1 & G2 & G3 & G4).
  repeat split; try congruence; set_solver.
Qed.

Lemma tables_unchanged {A} (m : E A) : (forall env, snd (m env) = env) -> spec.keepsTables m.
Proof.
  intros H env r env' E. pose proof (H env) as Hs. rewrite E in Hs. simpl in Hs. subst.
  apply extends_refl.
Qed.

Lemma tables_bind {A B} (m : E A) (k : A -> E B) :
  spec.keepsTables m -> (forall a, spec.keepsTables (k a)) -> spec.keepsTables (bind m k).
Proof.
  intros Hm Hk env r env'. unfold bind.
  destruct (m env) as [[a| | |] e1] eqn:E; intros H; pose proof (Hm _ _ _ E) as H1;
    try (injection H as <- <-; exact H1).
  eapply extends_trans; [exact H1|]. eapply Hk; eassumption.
Qed.

Lemma tables_handleReturn (m : E Object) : spec.keepsTables m -> spec.keepsTables (handleReturn m).
Proof.
  intros Hm env r env'. unfold handleReturn.
  destruct (m env) as [[a| | |] e1] eqn:E; intros H; injection H as <- <-; eapply Hm; eassumption.
Qed.

Lemma tables_inEnvironment {A} callee (m : E A) : spec.keepsTables (inEnvironment callee m).
Proof. now apply tables_unchanged. Qed.

Lemma extends_setVariable k v env : spec.extends env (setVariable k v env).
Proof. repeat split; try reflexivity; simpl. set_solver. Qed.

Lemma extends_setFunction k v env : spec.extends env (setFunction k v env).
Proof. repeat split; try reflexivity; simpl. set_solver. Qed.

Lemma tables_update {A} (f : Environment -> Environment) (a : A) :
  (forall env, spec.extends env (f env)) ->
  spec.keepsTables (environment <- getState ;; do putState (f environment) ;; ret a).
Proof. intros Hf env r env' H. injection H as <- <-. apply Hf. Qed.

Ltac tables_step :=
  match goal with
  | |- spec.keepsTables (bind _ _) => apply tables_bind; [|intros ?]
  | |- spec.keepsTables (handleReturn _) => apply tables_handleReturn
  | |- spec.keepsTables (inEnvironment _ _) => apply tables_inEnvironment
  | |- spec.keepsTables (ret _) => now apply tables_unchanged
  | |- spec.keepsTables (fail _) => now apply tables_unchanged
  | |- spec.keepsTables (panic _) => now apply tables_unchanged
  | |- spec.keepsTables (lift _) => now apply tables_unchanged
  | |- spec.keepsTables getState => now apply tables_unchanged
  | |- spec.keepsTables evaluator.outOfFuel => now apply tables_unchanged
  | |- spec.keepsTables (if ?c then _ else _) => destruct c
  | |- spec.keepsTables (match ?x with _ => _ end) => destruct x
  end.

Section Tables.
Variable X : Externals.
Hypothesis HX : spec.builtinsKeepTables X.
Variable ev : Node -> E Object.
Hypothesis Hev : forall node, spec.keepsTables (ev node).

Lemma tables_evalNodes Nodes : forall Objects, spec.keepsTables (evalNodes ev Nodes Objects).
Proof.
  induction Nodes as [|node Nodes IH]; intros Objects; simpl; repeat tables_step; auto.
Qed.

Lemma tables_bindArguments declared arguments :
  forall i env, spec.keepsTables (bindArguments ev declared i arguments env).
Proof.
  induction arguments as [|node arguments IH]; intros i env; simpl; repeat tables_step; auto.
Qed.

Lemma tables_lastObject r : spec.keepsTables (lastObject r).
Proof. unfold lastObject. repeat tables_step. Qed.

Lemma tables_builtin name function Objects :
  functions X !! name = Some function -> spec.keepsTables (function Objects).
Proof.
  unfold functions. destruct (HX Objects) as (H1 & H2 & H3 & H4).
  repeat (rewrite lookup_insert; case_decide); rewrite ?lookup_empty;
    intros Hf; try discriminate; injection Hf as <-; assumption.
Qed.

Lemma tables_evalFunctionCall name params : spec.keepsTables (evalFunctionCall X ev name params).
Proof.
  unfold evalFunctionCall. apply tables_bind; [now apply tables_unchanged|]. intros environment.
  destruct (functions X !! name) as [function|] eqn:E.
  - apply tables_bind; [apply Hev|]. intros a.
    destruct a; try (now apply tables_unchanged). eapply tables_builtin; eassumption.
  - destruct (Functions environment !! name); [|now apply tables_unchanged].
    apply tables_bind; [apply tables_bindArguments|]. intros env.
    apply tables_bind; [apply tables_inEnvironment|]. intros a. apply tables_lastObject.
Qed.

Lemma tables_evalInfix l op r : spec.keepsTables (evalInfix X ev l op r).
Proof. unfold evalInfix. apply tables_bind; [apply Hev|]. intros a. repeat tables_step. Qed.

Lemma tables_evalBinaryOp l op r : spec.keepsTables (evalBinaryOp X ev l op r).
Proof.
  unfold evalBinaryOp. apply tables_bind; [apply Hev|]. intros a.
  repeat (first [apply tables_evalInfix | tables_step]).
Qed.

Lemma tables_evalUnaryOp op r : spec.keepsTables (evalUnaryOp ev op r).
Proof. unfold evalUnaryOp. apply tables_bind; [apply Hev|]. intros a. repeat tables_step. Qed.

Lemma tables_evalIdentifier x : spec.keepsTables (evalIdentifier X x).
Proof.
  apply tables_unchanged. intros env. unfold evalIdentifier.
  repeat match goal with |- context [match ?x with _ => _ end] => destruct x end; reflexivity.
Qed.
End Tables.

(** Evaluation never changes the constants or the periodic table, and
    never unbinds a variable or a function: whatever the node, the step
    budget and the outcome (a value, an error or a panic), the environment
    left behind extends the one it started from, provided the four
    built-in functions do the same. *)
Theorem Eval_keeps_tables X fuel node env r env' :
  spec.builtinsKeepTables X ->
  Eval X fuel node env = (r, env') ->
  spec.extends env env'.
Proof.
  intros HX. revert node env r env'.
  change (forall node, spec.keepsTables (Eval X fuel node)).
  induction fuel as [|fuel IH]; intros node; [now apply tables_unchanged|].
  cbn [Eval].
  destruct node as [ns|x|z|f|s|inner u|l op r|op r|name args|ns|x e|x ps cs|].
  - now apply tables_evalNodes.
  - now apply tables_evalIdentifier.
  - now apply tables_unchanged.
  - now apply tables_unchanged.
  - now apply tables_unchanged.
  - repeat tables_step; auto.
  - apply tables_handleReturn. now apply tables_evalBinaryOp.
  - apply tables_handleReturn. now apply tables_evalUnaryOp.
  - now apply tables_evalFunctionCall.
  - now apply tables_unchanged.
  - apply tables_bind; [apply IH|]. intros v.
    apply (tables_update (setVariable x v)). apply extends_setVariable.
  - apply (tables_update (setFunction x _)). apply extends_setFunction.
  - now apply tables_unchanged.
Qed.

Lemma int64_neg_involutive v : int64.in_range v = true -> int64.neg (int64.neg v) = v.
Proof.
  unfold int64.in_range, int64.neg, int64.wrap, int64.min, int64.max.
  intros H. apply andb_prop in H as [H1 H2]. apply Z.leb_le in H1, H2.
  destruct (Z.eq_dec v (- 2 ^ 63)) as [->|Hne]; [reflexivity|].
  rewrite (Z.mod_small (- v + 2 ^ 63)) by lia.
  replace (- (- v + 2 ^ 63 - 2 ^ 63) + 2 ^ 63) with (v + 2 ^ 63) by lia.
  rewrite Z.mod_small by lia. lia.
Qed.

Lemma int64_neg_in_range v : int64.in_range (int64.neg v) = true.
Proof.
  unfold int64.in_range, int64.neg, int64.wrap, int64.min, int64.max.
  pose proof (Z.mod_pos_bound (- v + 2 ^ 63) (2 ^ 64) ltac:(lia)).
  apply andb_true_intro. split; [apply Z.leb_le|apply Z.leb_le]; lia.
Qed.

(** Unary minus: on an integer and on a float, negating twice gives
    the operand back; the integer result is the mathematical opposite
    except on the least 64-bit integer, which is its own opposite; a
    number with a unit cannot be negated. *)
Theorem unary_minus_involution :
  (forall v, int64.in_range v = true ->
     exists w, evalUnarySub (Num (Integer v)) = Ok (Num (Integer w))
               /\ int64.in_range w = true
               /\ evalUnarySub (Num (Integer w)) = Ok (Num (Integer v))
               /\ (v <> int64.min -> w = - v))
  /\ evalUnarySub (Num (Integer int64.min)) = Ok (Num (Integer int64.min))
  /\ (forall f, exists g, evalUnarySub (Num (Float f)) = Ok (Num (Float g))
                          /\ evalUnarySub (Num (Float g)) = Ok (Num (Float f)))
  /\ (forall v u, evalUnarySub (Num (Unit v u))
                  = Err "UnaryOperationError: Cannot negate type UNIT_OBJ").
Proof.
  split; [|split; [reflexivity|split]].
  - intros v Hv. exists (int64.neg v). split; [reflexivity|].
    split; [apply int64_neg_in_range|]. split.
    + simpl. now rewrite int64_neg_involutive.
    + intros Hne. unfold int64.in_range, int64.neg, int64.wrap, int64.min, int64.max in *.
      apply andb_prop in Hv as [H1 H2]. apply Z.leb_le in H1, H2.
      rewrite Z.mod_small by lia. lia.
  - intros f. exists (float64.neg f). split; [reflexivity|]. simpl.
    destruct f as [[]|[]| |[] m e]; reflexivity.
  - reflexivity.
Qed.

(** Logical negation always answers with the integer 0 or 1, and
    answers 1 on the integer 0 and on the empty string only: the float
    [0.0], a zero with a unit, the nil object and an absent object are
    all negated to 0. *)
Theorem not_is_one_only_on_zero_and_empty (o : Object) :
  (evalUnaryNot o = Integer 1 \/ evalUnaryNot o = Integer 0)
  /\ (evalUnaryNot o = Integer 1 <-> o = Num (Integer 0) \/ o = String_ EmptyString).
Proof.
  destruct o as [[v|f|v u]|s| | | |]; simpl.
  - destruct (Z.eqb_spec v 0) as [->|Hv].
    + split; [now left|]. split; auto.
    + split; [now right|]. split; [discriminate|]. intros [H|H]; [|discriminate].
      injection H as ->. contradiction.
  - split; [now right|]. split; [discriminate|]. intros [H|H]; discriminate.
  - split; [now right|]. split; [discriminate|]. intros [H|H]; discriminate.
  - destruct s as [|c s]; simpl.
    + split; [now left|]. split; auto.
    + split; [now right|]. split; [discriminate|]. intros [H|H]; discriminate.
  - split; [now right|]. split; [discriminate|]. intros [H|H]; discriminate.
  - split; [now right|]. split; [discriminate|]. intros [H|H]; discriminate.
  - split; [now right|]. split; [discriminate|]. intros [H|H]; discriminate.
  - split; [now right|]. split; [discriminate|]. intros [H|H]; discriminate.
Qed.

(** Between two strings the only binary operation (besides [in],
    which is handled apart) is [+], which concatenates; every other
    operator, the comparisons included, is an error that names the
    operator. *)
Theorem strings_support_only_addition X fuel Left Right operation env a env1 b env2 :
  operation <> IN ->
  Eval X fuel Left env = (Ok (String_ a), env1) ->
  Eval X fuel Right env1 = (Ok (String_ b), env2) ->
  Eval X (S fuel) (BinOpNode Left operation Right) env
  = (if (operation =? ADD)%string then Ok (String_ (a ++ b))
     else Err ("BinaryOperationError: Unsupported Operation Between Strings " ++ operation),
     env2).
Proof.
  intros Hop HL HR. cbn [Eval]. unfold handleReturn, evalBinaryOp, bind. rewrite HL.
  apply String.eqb_neq in Hop. rewrite Hop. cbn [andb].
  unfold evalInfix, bind. rewrite HR. unfold handleReturn, lift, evalStringInfix.
  destruct (operation =? ADD)%string; reflexivity.
Qed.

(** Division by the integer zero is no error and no panic: the
    operands are divided as floats, so a non-zero number without unit
    divided by [0] is the [Float] infinity of its sign, and [0 / 0] is the
    [Float] NaN. *)
Theorem division_by_zero_is_infinite X (l : Number) s m e :
  isUnit l = false ->
  Inspect l = S754_finite s m e ->
  evalNumberInfix X l (Integer 0) DIV = Ok (Num (Float (S754_infinity s)))
  /\ evalNumberInfix X (Integer 0) (Integer 0) DIV = Ok (Num (Float S754_nan)).
Proof.
  intros Hl Hi. split; [|reflexivity].
  unfold evalNumberInfix. rewrite Hl. cbn [andb isUnit].
  change (isUnit (Integer 0)) with false. cbn iota.
  unfold binaryOperations. cbn -[formatFloat float64.div Inspect]. rewrite Hi.
  destruct s; reflexivity.
Qed.



(** A call of a name that is neither built-in nor defined is a
    "FunctionCallError"; the arguments are not evaluated, and the
    environment is unchanged. *)
Theorem unknown_function_is_an_error X fuel name arguments env :
  functions X !! name = None ->
  Functions env !! name = None ->
  Eval X (S fuel) (FunctionCallNode name arguments) env
  = (Err ("FunctionCallError: Function with Identifer " ++ name ++ " is not defined"), env).
Proof.
  intros Hb Hf. cbn [Eval]. unfold evalFunctionCall, bind, getState. cbn beta iota.
  now rewrite Hb, Hf.
Qed.

(** The built-in names win: a call of [frac], [print], [root] or
    [lookup] runs the built-in function on the evaluated arguments and the
    caller's environment, whatever the functions table holds under that
    name. *)
Theorem builtin_names_cannot_be_redefined X fuel name arguments env Objects env1 :
  In name ["frac"; "print"; "root"; "lookup"] ->
  Eval X fuel (ProgramNode arguments) env = (Ok (Program_ Objects), env1) ->
  exists function,
    functions X !! name = Some function
    /\ In function [frac X; print X; root X; lookup_ X]
    /\ Eval X (S fuel) (FunctionCallNode name arguments) env = function Objects env1.
Proof.
  intros Hin Hargs.
  assert (Hf : exists function, functions X !! name = Some function
                                /\ In function [frac X; print X; root X; lookup_ X]).
  { simpl in Hin. destruct Hin as [<-|[<-|[<-|[<-|[]]]]]; eexists; (split; [reflexivity|]);
      simpl; auto. }
  destruct Hf as (function & Hf & Hfin). exists function. split; [exact Hf|]. split; [exact Hfin|].
  cbn [Eval]. unfold evalFunctionCall, bind, getState. cbn beta iota. rewrite Hf, Hargs.
  reflexivity.
Qed.

(** A user-defined function with an empty body cannot be called: once
    the arguments are evaluated and bound, taking the last result of the
    empty program indexes out of range. *)
Theorem call_of_empty_body_panics X fuel name arguments env function names values env1 :
  functions X !! name = None ->
  Functions env !! name = Some function ->
  Parameters function = map IdentifierNode names ->
  (length arguments <= length names)%nat ->
  spec.evalArguments (Eval X (S fuel)) arguments env = (Ok values, env1) ->
  Consequence function = [] ->
  Eval X (S (S fuel)) (FunctionCallNode name arguments) env
  = (Panic index_out_of_range, env1).
Proof.
  intros Hb Hf Hp Hlen Hargs Hc.
  cbn [Eval]. unfold evalFunctionCall, bind, getState. cbn beta iota. rewrite Hb, Hf, Hp, Hc.
  rewrite (bindArguments_positional _ names arguments 0 newEnvironment env values env1)
    by (simpl; lia || assumption).
  reflexivity.
Qed.



(** A unit annotation takes the magnitude of its operand and nothing
    else: annotating a number that already has a unit replaces the unit
    without any conversion; annotating an object that is not a number is an
    "EvaluatorError"; and annotating the nil value, which an identifier
    that matches nothing evaluates to, panics in the type assertion of
    [isNumberObject]. *)
Theorem unit_annotation_replaces_the_unit X fuel inner u w env env1 :
  (forall n, Eval X fuel inner env = (Ok (Num n), env1) ->
     Eval X (S (S fuel)) (UnitNode (UnitNode inner u) w) env
     = (Ok (Num (Unit (Inspect n) w)), env1))
  /\ (forall o, Eval X fuel inner env = (Ok o, env1) ->
     (forall n, o <> Num n) -> o <> NoObject ->
     Eval X (S fuel) (UnitNode inner u) env
     = (Err ("EvaluatorError:" ++ ObjectString X o ++ " is not type Number"), env1))
  /\ (Eval X fuel inner env = (Ok NoObject, env1) ->
     Eval X (S fuel) (UnitNode inner u) env = (Panic interface_conversion, env1)).
Proof.
  split; [|split].
  - intros n H.
    assert (H1 : Eval X (S fuel) (UnitNode inner u) env = (Ok (Num (Unit (Inspect n) u)), env1)).
    { cbn [Eval]. unfold bind. now rewrite H. }
    change (Eval X (S (S fuel)) (UnitNode (UnitNode inner u) w))
      with (value <- Eval X (S fuel) (UnitNode inner u) ;;
            objectValue <- lift (isNumberObject X value) ;;
            ret (Num (Unit (Inspect objectValue) w))).
    unfold bind at 1. now rewrite H1.
  - intros o H Hn Hnil. cbn [Eval]. unfold bind. rewrite H.
    destruct o; try reflexivity; [now destruct (Hn n)|contradiction].
  - intros H. cbn [Eval]. unfold bind. now rewrite H.
Qed.

(** [lookupIdentifier] fails on the empty string only; [in], [define]
    and [per] are the keywords (with [per] read as the division operator),
    in this exact spelling, and every other non-empty string is an
    identifier. *)
Theorem lookupIdentifier_classifies (identifier : string) :
  lookupIdentifier identifier
  = if (identifier =? EmptyString)%string then
      inr "LexerError: lookupIdentifier() identifier StringLength must be greater than 0"
    else if (identifier =? "in")%string then inl IN
    else if (identifier =? "define")%string then inl DEFINE
    else if (identifier =? "per")%string then inl DIV
    else inl IDENTIFIER.
Proof.
  unfold lookupIdentifier, keywords.
  destruct (String.eqb_spec identifier EmptyString) as [->|Hne]; [reflexivity|].
  assert (Hl : (String.length identifier =? 0)%nat = false)
    by (destruct identifier; [congruence|reflexivity]).
  rewrite Hl.
  repeat (let H := fresh "H" in
          rewrite lookup_insert; case_decide as H;
          [rewrite <- H; reflexivity | apply not_eq_sym, String.eqb_neq in H; rewrite H]).
  now rewrite lookup_empty.
Qed.

Lemma digits2_pos_size p : digits2_pos p = Pos.size p.
Proof. induction p; simpl; congruence. Qed.

Lemma digits_of_small p : Zpos p < 2 ^ 53 -> Zpos (digits2_pos p) <= 53.
Proof.
  intros H. rewrite digits2_pos_size.
  pose proof (Pos.size_le p) as Hle.
  assert (Hz : 2 ^ Zpos (Pos.size p) <= 2 * Zpos p).
  { rewrite <- Pos2Z.inj_pow. change (2 * Zpos p) with (Zpos p~0). now apply Pos2Z.pos_le_pos. }
  destruct (Z_le_gt_dec (Zpos (Pos.size p)) 53) as [?|Hgt]; [assumption|exfalso].
  assert (2 ^ 54 <= 2 ^ Zpos (Pos.size p)) by (apply Z.pow_le_mono_r; lia).
  lia.
Qed.

Lemma binary_round_small s p :
  Zpos p < 2 ^ 53 ->
  exists m e, binary_round float64.prec float64.emax s p 0 = S754_finite s m e
              /\ float64.trunc (S754_finite s m e) = cond_Zopp s (Zpos p).
Proof.
  intros Hp. pose proof (digits_of_small p Hp) as Hd.
  destruct (Z.eq_dec (Zpos (digits2_pos p)) 53) as [Heq|Hne].
  - exists p, 0. split; [|reflexivity].
    apply (binary_round_shifted s p 0).
    unfold bounded, canonical_mantissa. rewrite Z.add_0_r, Heq. reflexivity.
  - set (k := Z.to_pos (53 - Zpos (digits2_pos p))).
    exists (Pos.iter xO p k), (Zneg k). split.
    + apply (binary_round_shifted s (Pos.iter xO p k) (Zneg k)); [|reflexivity].
      unfold bounded, canonical_mantissa. rewrite digits2_pos_iter.
      apply andb_true_intro. split; [apply Z.eqb_eq|reflexivity].
      unfold fexp, emin, float64.prec, float64.emax. subst k. lia.
    + unfold float64.trunc. now rewrite shiftr_iter.
Qed.

Lemma of_int_small z :
  - 2 ^ 53 < z < 2 ^ 53 ->
  float64.to_int (float64.of_int z) = z
  /\ float64.eqb (float64.of_int z) (float64.of_int z) = true
  /\ float64.add (float64.of_int z) (float64.of_int 0) = float64.of_int z.
Proof.
  intros Hz. destruct z as [|p|p].
  - repeat split.
  - destruct (binary_round_small false p ltac:(lia)) as (m & e & Hr & Ht).
    unfold float64.of_int, binary_normalize. rewrite Hr.
    split; [|split; [apply eqb_finite_refl|reflexivity]].
    unfold float64.to_int. rewrite Ht. simpl cond_Zopp.
    assert (Hin : int64.in_range (Zpos p) = true).
    { unfold int64.in_range, int64.min, int64.max. apply andb_true_intro.
      split; apply Z.leb_le; lia. }
    now rewrite Hin.
  - destruct (binary_round_small true p ltac:(lia)) as (m & e & Hr & Ht).
    change (cond_Zopp true (Zpos p)) with (Zneg p) in Ht.
    unfold float64.of_int, binary_normalize. rewrite Hr.
    split; [|split; [apply eqb_finite_refl|reflexivity]].
    unfold float64.to_int. rewrite Ht.
    assert (Hin : int64.in_range (Zneg p) = true).
    { unfold int64.in_range, int64.min, int64.max. apply andb_true_intro.
      split; apply Z.leb_le; lia. }
    now rewrite Hin.
Qed.

(** Integers below [2^53] in absolute value survive the passage
    through floats: their magnitude is normalized back to the same
    [Integer], and adding the integer 0 returns them unchanged; the bound
    is sharp, since [2^53 + 1] comes back as [2^53]. *)
Theorem small_integers_survive_normalization X z :
  - 2 ^ 53 < z < 2 ^ 53 ->
  formatFloat (Inspect (Integer z)) = Integer z
  /\ evalNumberInfix X (Integer z) (Integer 0) ADD = Ok (Num (Integer z))
  /\ formatFloat (Inspect (Integer (2 ^ 53 + 1))) = Integer (2 ^ 53).
Proof.
  intros Hz. destruct (of_int_small z Hz) as (Hto & Heq & Hadd).
  assert (Hf : formatFloat (float64.of_int z) = Integer z).
  { unfold formatFloat. now rewrite Hto, Heq. }
  split; [exact Hf|]. split; [|vm_compute; reflexivity].
  rewrite evalNumberInfix_no_unit by reflexivity.
  cbn [Inspect]. change (binaryOperations X ?a ?b ADD) with (float64.add a b).
  now rewrite Hadd, Hf.
Qed.

(** *** Instances *)

(** [x = 1]. *)
Lemma program_one_result_per_statement_witness :
  exists results, Program_ [Nil] = Program_ results /\ length results = 1%nat.
Proof.
  apply (program_one_result_per_statement world.sample 3 [AssignNode "x" (IntNode 1)]
           world.empty (Program_ [Nil]) (setVariable "x" (Num (Integer 1)) world.empty)).
  vm_compute. reflexivity.
Defined.

(** [x = 1; nope(); 2]. *)
Lemma program_stops_at_first_error_witness :
  Eval world.sample 3
    (ProgramNode [AssignNode "x" (IntNode 1); FunctionCallNode "nope" []; IntNode 2])
    world.empty
  = (Err "FunctionCallError: Function with Identifer nope is not defined",
     setVariable "x" (Num (Integer 1)) world.empty).
Proof.
  apply (program_stops_at_first_error world.sample 2 [AssignNode "x" (IntNode 1)]
           (FunctionCallNode "nope" []) [IntNode 2] world.empty [Nil]
           (setVariable "x" (Num (Integer 1)) world.empty)).
  - vm_compute. reflexivity.
  - vm_compute. reflexivity.
Defined.


(** [H = 5; H] with the element hydrogen, and [pi = 5; pi] with a constant. *)
Lemma assigned_name_is_shadowed_witness :
  let env := {| Constants := <["pi" := Num (Integer 3)]> ∅; Variables := ∅;
                Functions := ∅; PeriodicTable := Some world.table |} in
  Eval world.sample 3 (ProgramNode [AssignNode "H" (IntNode 5); IdentifierNode "H"])
    world.empty
  = (Ok (Program_ [Nil; Num (Integer 1)]), setVariable "H" (Num (Integer 5)) world.empty)
  /\ Eval world.sample 3 (ProgramNode [AssignNode "pi" (IntNode 5); IdentifierNode "pi"]) env
     = (Ok (Program_ [Nil; Num (Integer 3)]), setVariable "pi" (Num (Integer 5)) env).
Proof.
  intros env. split.
  - apply (proj2 (assigned_name_is_shadowed world.sample 1 "H" (IntNode 5) world.empty
                    (Num (Integer 5)) world.empty eq_refl)
             {| symbol := "H"; name := "Hydrogen"; atomic_mass := float64.of_int 1 |}).
    + reflexivity.
    + vm_compute. reflexivity.
  - apply (proj1 (assigned_name_is_shadowed world.sample 1 "pi" (IntNode 5) env
                    (Num (Integer 5)) env eq_refl) (Num (Integer 3))).
    vm_compute. reflexivity.
Defined.

(** [x = 1]. *)
Lemma Eval_keeps_tables_witness :
  spec.extends world.empty (setVariable "x" (Num (Integer 1)) world.empty).
Proof.
  apply (Eval_keeps_tables world.sample 2 (AssignNode "x" (IntNode 1)) world.empty (Ok Nil)).
  - intros Objects. repeat apply conj; now apply tables_unchanged.
  - vm_compute. reflexivity.
Defined.

Lemma unary_minus_involution_witness :
  exists w, evalUnarySub (Num (Integer 5)) = Ok (Num (Integer w))
            /\ int64.in_range w = true
            /\ evalUnarySub (Num (Integer w)) = Ok (Num (Integer 5))
            /\ (5 <> int64.min -> w = - 5).
Proof. apply (proj1 unary_minus_involution 5). reflexivity. Defined.

(** ["a" == "a"] and ["a" + "b"]. *)
Lemma strings_support_only_addition_witness :
  Eval world.sample 2 (BinOpNode (StringNode "a") EE (StringNode "a")) world.empty
  = (Err "BinaryOperationError: Unsupported Operation Between Strings EE", world.empty)
  /\ Eval world.sample 2 (BinOpNode (StringNode "a") ADD (StringNode "b")) world.empty
     = (Ok (String_ "ab"), world.empty).
Proof.
  split.
  - apply (strings_support_only_addition world.sample 1 (StringNode "a") (StringNode "a") EE
             world.empty "a" world.empty "a" world.empty).
    + unfold EE, IN. discriminate.
    + reflexivity.
    + reflexivity.
  - apply (strings_support_only_addition world.sample 1 (StringNode "a") (StringNode "b") ADD
             world.empty "a" world.empty "b" world.empty).
    + unfold ADD, IN. discriminate.
    + reflexivity.
    + reflexivity.
Defined.

(** [1 / 0]. *)
Lemma division_by_zero_is_infinite_witness :
  evalNumberInfix world.sample (Integer 1) (Integer 0) DIV
  = Ok (Num (Float (S754_infinity false)))
  /\ evalNumberInfix world.sample (Integer 0) (Integer 0) DIV = Ok (Num (Float S754_nan)).
Proof.
  apply (division_by_zero_is_infinite world.sample (Integer 1) false 4503599627370496 (-52)).
  - reflexivity.
  - vm_compute. reflexivity.
Defined.


(** [nope()]. *)
Lemma unknown_function_is_an_error_witness :
  Eval world.sample 1 (FunctionCallNode "nope" [IntNode 1]) world.empty
  = (Err "FunctionCallError: Function with Identifer nope is not defined", world.empty).
Proof.
  apply (unknown_function_is_an_error world.sample 0 "nope" [IntNode 1] world.empty).
  - vm_compute. reflexivity.
  - reflexivity.
Defined.

(** [print(1)] where a function [print] has been defined. *)
Lemma builtin_names_cannot_be_redefined_witness :
  let env := setFunction "print" spec.k_function world.empty in
  exists function,
    functions world.sample !! "print" = Some function
    /\ In function [frac world.sample; print world.sample; root world.sample;
                    lookup_ world.sample]
    /\ Eval world.sample 3 (FunctionCallNode "print" [IntNode 1]) env
       = function [Num (Integer 1)] env.
Proof.
  intros env.
  apply (builtin_names_cannot_be_redefined world.sample 2 "print" [IntNode 1] env
           [Num (Integer 1)] env).
  - simpl. tauto.
  - vm_compute. reflexivity.
Defined.

(** [e(1)] where [e] has one parameter and an empty body. *)
Lemma call_of_empty_body_panics_witness :
  let e := {| Identifier := "e"; Parameters := [IdentifierNode "a"]; Consequence := [] |} in
  Eval world.sample 3 (FunctionCallNode "e" [IntNode 1]) (setFunction "e" e world.empty)
  = (Panic index_out_of_range, setFunction "e" e world.empty).
Proof.
  intros e.
  apply (call_of_empty_body_panics world.sample 1 "e" [IntNode 1]
           (setFunction "e" e world.empty) e ["a"] [Num (Integer 1)]).
  - vm_compute. reflexivity.
  - vm_compute. reflexivity.
  - reflexivity.
  - simpl. lia.
  - vm_compute. reflexivity.
  - reflexivity.
Defined.


(** [(5 day) week], [("a") day], and [abc day] where only [xyz] is bound. *)
Lemma unit_annotation_replaces_the_unit_witness :
  Eval world.sample 3 (UnitNode (UnitNode (IntNode 5) "day") "week") world.empty
  = (Ok (Num (Unit (float64.of_int 5) "week")), world.empty)
  /\ Eval world.sample 2 (UnitNode (StringNode "a") "day") world.empty
     = (Err ("EvaluatorError:" ++ ObjectString world.sample (String_ "a")
             ++ " is not type Number"), world.empty)
  /\ Eval world.sample 2 (UnitNode (IdentifierNode "abc") "day") spec.only_xyz
     = (Panic interface_conversion, spec.only_xyz).
Proof.
  split; [|split].
  - apply (proj1 (unit_annotation_replaces_the_unit world.sample 1 (IntNode 5) "day" "week"
                    world.empty world.empty) (Integer 5)).
    reflexivity.
  - apply (proj1 (proj2 (unit_annotation_replaces_the_unit world.sample 1 (StringNode "a")
                           "day" "week" world.empty world.empty)) (String_ "a")).
    + reflexivity.
    + discriminate.
    + discriminate.
  - apply (proj2 (proj2 (unit_annotation_replaces_the_unit world.sample 1
                           (IdentifierNode "abc") "day" "week"
                           spec.only_xyz spec.only_xyz))).
    vm_compute. reflexivity.
Defined.

Lemma small_integers_survive_normalization_witness :
  formatFloat (Inspect (Integer 7)) = Integer 7
  /\ evalNumberInfix world.sample (Integer 7) (Integer 0) ADD = Ok (Num (Integer 7))
  /\ formatFloat (Inspect (Integer (2 ^ 53 + 1))) = Integer (2 ^ 53).
Proof. apply (small_integers_survive_normalization world.sample 7). lia. Defined.

(* ===================================================================== *)
(** * Further properties: statements, grouping, rounding and operands *)
(* ===================================================================== *)

Lemma peekToken_total p : exists pk, peekToken p = (Ok pk, p).
Proof.
  unfold peekToken. destruct (length (tokens p) <=? position p + 1)%nat eqn:E; [eauto|].
  apply Nat.leb_gt in E.
  destruct (lookup_lt_is_Some_2 (tokens p) (position p + 1) E) as [t ->]. eauto.
Qed.

(** A semicolon does not end a program: on a semicolon that is followed by
    the end of the input, [Parse] skips the semicolon and then asks for one
    more statement, which the end-of-file token cannot start.  The nodes
    read so far are lost to a syntax error. *)
Theorem trailing_semicolon_is_rejected pf fuel ast p t :
  Type_ (token p) = SEMICOLON ->
  tokens p !! S (position p) = Some t ->
  Type_ t = EOF ->
  ParseLoop pf (4 + fuel) ast p
  = (Err ("SyntaxError: parsePrefix() unsupported prefix:" ++ Literal t),
     {| tokens := tokens p; token := t; position := S (position p) |}).
Proof.
  intros Hs Ht He. cbn [ParseLoop Nat.add]. unfold bind at 1, cur at 1. rewrite Hs.
  change (SEMICOLON == EOF) with false. cbn iota.
  change (SEMICOLON == SEMICOLON) with true. cbn iota.
  unfold bind at 1. unfold bind at 1. unfold advance at 1. rewrite Ht.
  unfold ret at 1.
  set (p1 := {| tokens := tokens p; token := t; position := S (position p) |}).
  unfold bind at 1. cbn [parseExpression]. unfold bind at 1, cur at 1.
  unfold bind at 1. destruct (peekToken_total p1) as (pk & ->).
  change (token p1) with t. rewrite He.
  change (EOF == IDENTIFIER) with false. cbn [andb]. cbn iota.
  change (EOF == DEFINE) with false. cbn iota.
  cbn [parseExpr]. unfold bind at 1. cbn [parsePrefix]. unfold bind at 1, cur at 1.
  change (token p1) with t. rewrite He. reflexivity.
Qed.

(** A prefix operator applies to the operand that follows it and to nothing
    more: in [u x op y] the operator [u] is applied to [x] alone, whatever
    the infix operator [op], the power operator included ([-x ^ y] is
    [(-x) ^ y]). *)
Theorem unary_operators_bind_tightest pf n u lu x op lo y :
  In u spec.unaryOperators -> In op infixOperators ->
  ParseTokens pf (8 + n) (spec.unaryThenBinary u lu x op lo y)
  = Ok (ProgramNode
          [BinOpNode (UnaryOpNode u (IdentifierNode x)) (spec.normalized op)
                     (IdentifierNode y)]).
Proof.
  unfold spec.unaryOperators, infixOperators. simpl In. intros H1 H2.
  repeat (destruct H1 as [<- | H1]; [|]); try (destruct H1);
  repeat (destruct H2 as [<- | H2]; [|]); try (destruct H2); vm_compute; reflexivity.
Qed.

Ltac parser_run :=
  unfold bind, ret, fail, panic, lift, catch, cur, advance, peekToken, unitSuffix;
  cbn [fst snd
       Type_ Literal tokens token position spec.tk
       String.eqb Ascii.eqb Bool.eqb andb orb negb
       lookup list_lookup length Nat.leb Nat.add app
       EOF SEMICOLON IDENTIFIER EQ DEFINE TILDE NOT SUB LPAREN LSQUARE INT FLOAT STRING
       RPAREN RSQUARE COMMA ARROW].

(** The closing parenthesis of a group is never looked at: after the
    expression in parentheses the parser steps over one token, whatever it
    is.  So [( x t] parses as [x] for every token [t] that does not turn
    [x] into a call or a quantity: [(x)] as well as [(x]], [(x +] or
    [(x 5], where the token in the place of the parenthesis is dropped. *)
Theorem closing_parenthesis_is_not_checked pf n x t :
  Type_ t <> IDENTIFIER -> Type_ t <> LPAREN ->
  ParseTokens pf (7 + n) (spec.grouped x t) = Ok (ProgramNode [IdentifierNode x]).
Proof.
  destruct t as [ty lit]. cbn [Type_]. intros Hi Hl.
  apply String.eqb_neq in Hi, Hl.
  unfold ParseTokens, spec.grouped, NewParser, Parse. cbn [lookup list_lookup Nat.add].
  cbn [ParseLoop]. parser_run. cbn [parseExpression]. parser_run.
  cbn [parseExpr]. parser_run. cbn [parsePrefix]. parser_run.
  cbn [parseExpr]. parser_run. cbn [parsePrefix]. parser_run.
  rewrite Hl. parser_run. rewrite Hi. parser_run.
  cbn [parseExprLoop]. parser_run. reflexivity.
Qed.

Lemma to_int_in_range f : int64.in_range (float64.to_int f) = true.
Proof.
  unfold float64.to_int. destruct f as [s|s| |s m e]; try reflexivity.
  destruct (int64.in_range (float64.trunc (S754_finite s m e))) eqn:E; [exact E|reflexivity].
Qed.

Lemma Round_integral f :
  float64.valid f = true -> spec.integral f = true -> float64.Round f = f.
Proof.
  destruct f as [s|s| |s m [|k|k]]; try reflexivity.
  intros Hv Hi. pose proof (of_int_trunc _ Hv Hi) as Ht.
  simpl in Hi. apply Z.eqb_eq in Hi.
  destruct (low_bits_zero m k Hi) as (m0 & ->).
  unfold float64.Round. rewrite Hi, shiftr_iter.
  replace (Z.shiftl 1 (Zpos k) <=? 2 * 0) with false
    by (symmetry; apply Z.leb_gt; rewrite Z.shiftl_1_l; lia).
  cbn [Z.eqb]. unfold float64.trunc in Ht. rewrite shiftr_iter in Ht.
  unfold float64.of_int in Ht. destruct s; exact Ht.
Qed.

(** Rounding: the result of a rounding that succeeds is an Integer, and
    rounding it again changes nothing; a Float is always rounded, to an
    Integer in the range of the 64-bit [int] (NaN and the infinities
    included); a Float without fractional part in that range is rounded to
    its own value; a number with a unit cannot be rounded. *)
Theorem rounding_yields_an_integer :
  (forall o r, evalUnaryRound o = Ok r ->
     exists z, r = Num (Integer z) /\ evalUnaryRound r = Ok r)
  /\ (forall f, exists z, evalUnaryRound (Num (Float f)) = Ok (Num (Integer z))
                          /\ int64.in_range z = true)
  /\ (forall f, float64.valid f = true -> spec.integral f = true ->
        int64.in_range (float64.trunc f) = true ->
        evalUnaryRound (Num (Float f)) = Ok (Num (Integer (float64.trunc f))))
  /\ (forall v u, evalUnaryRound (Num (Unit v u))
                  = Err "RoundingError: cannout round type UNIT_OBJ").
Proof.
  split; [|split; [|split]].
  - intros o r. destruct o as [[v|f|v u]|s| | | |]; simpl; intros H; try discriminate.
    + injection H as <-. now exists v.
    + injection H as <-. now exists (float64.to_int (float64.Round f)).
  - intros f. eexists. split; [reflexivity|apply to_int_in_range].
  - intros f Hv Hi Hr. simpl. rewrite (Round_integral f Hv Hi).
    unfold float64.to_int. destruct f as [s|s| |s m e]; try reflexivity; try discriminate.
    now rewrite Hr.
  - reflexivity.
Qed.

(** A binary operation other than [in] needs two numbers or two strings:
    on operands of any other pair of types (a number and a string, a Nil
    and anything, ...) it is an error that names the two types and the
    operator, after both operands have been evaluated. *)
Theorem unlike_operands_are_an_error X fuel Left Right operation env l env1 r env2 :
  operation <> IN ->
  Eval X fuel Left env = (Ok l, env1) ->
  Eval X fuel Right env1 = (Ok r, env2) ->
  (forall a b, (l, r) <> (Num a, Num b)) ->
  (forall a b, (l, r) <> (String_ a, String_ b)) ->
  l <> NoObject -> r <> NoObject ->
  exists lt rt,
    ObjectType l = Ok lt /\ ObjectType r = Ok rt
    /\ Eval X (S fuel) (BinOpNode Left operation Right) env
       = (Err ("BinaryOperationError: Unsupported Types: " ++ lt ++ operation ++ rt), env2).
Proof.
  intros Hop HL HR Hnn Hss Hl Hr.
  destruct (ObjectType_defined l Hl) as (lt & Hlt).
  destruct (ObjectType_defined r Hr) as (rt & Hrt).
  exists lt, rt. split; [exact Hlt|]. split; [exact Hrt|].
  cbn [Eval]. unfold handleReturn, evalBinaryOp, bind. rewrite HL.
  apply String.eqb_neq in Hop. rewrite Hop. cbn [andb].
  unfold evalInfix, bind. rewrite HR.
  destruct l as [a|a| | | |], r as [b|b| | | |];
    try contradiction; try (now destruct (Hnn a b)); try (now destruct (Hss a b));
    unfold lift; simpl in Hlt, Hrt; injection Hlt as <-; injection Hrt as <-; reflexivity.
Qed.

(** *** Instances *)

(** [x;], after [x] has been read. *)
Lemma trailing_semicolon_is_rejected_witness :
  let ts := [spec.tk IDENTIFIER "x"; spec.tk SEMICOLON ";"; spec.tk EOF EmptyString] in
  ParseLoop (fun _ => Err "unused") 4 [IdentifierNode "x"]
    {| tokens := ts; token := spec.tk SEMICOLON ";"; position := 1 |}
  = (Err "SyntaxError: parsePrefix() unsupported prefix:",
     {| tokens := ts; token := spec.tk EOF EmptyString; position := 2 |}).
Proof.
  intros ts.
  apply (trailing_semicolon_is_rejected (fun _ => Err "unused") 0 [IdentifierNode "x"]
           {| tokens := ts; token := spec.tk SEMICOLON ";"; position := 1 |}
           (spec.tk EOF EmptyString)); reflexivity.
Defined.

(** [-x ^ y]. *)
Lemma unary_operators_bind_tightest_witness :
  ParseTokens (fun _ => Err "unused") 8 (spec.unaryThenBinary SUB "-" "x" POW "^" "y")
  = Ok (ProgramNode
          [BinOpNode (UnaryOpNode SUB (IdentifierNode "x")) POW (IdentifierNode "y")]).
Proof.
  apply (unary_operators_bind_tightest (fun _ => Err "unused") 0 SUB "-" "x" POW "^" "y");
    simpl; tauto.
Defined.

(** [(x]]. *)
Lemma closing_parenthesis_is_not_checked_witness :
  ParseTokens (fun _ => Err "unused") 7 (spec.grouped "x" (spec.tk RSQUARE "]"))
  = Ok (ProgramNode [IdentifierNode "x"]).
Proof.
  apply (closing_parenthesis_is_not_checked (fun _ => Err "unused") 0 "x"
           (spec.tk RSQUARE "]")); discriminate.
Defined.

(** [~2.5] is 3, and [~2.0] is 2. *)
Lemma rounding_yields_an_integer_witness :
  (exists z, Num (Integer 3) = Num (Integer z)
             /\ evalUnaryRound (Num (Integer 3)) = Ok (Num (Integer 3)))
  /\ evalUnaryRound (Num (Float (float64.of_int 2))) = Ok (Num (Integer 2)).
Proof.
  split.
  - apply (proj1 rounding_yields_an_integer
             (Num (Float (float64.div (float64.of_int 5) (float64.of_int 2))))).
    vm_compute. reflexivity.
  - apply (proj1 (proj2 (proj2 rounding_yields_an_integer)) (float64.of_int 2));
      vm_compute; reflexivity.
Defined.

(** [1 + "a"]. *)
Lemma unlike_operands_are_an_error_witness :
  exists lt rt,
    ObjectType (Num (Integer 1)) = Ok lt /\ ObjectType (String_ "a") = Ok rt
    /\ Eval world.sample 2 (BinOpNode (IntNode 1) ADD (StringNode "a")) world.empty
       = (Err ("BinaryOperationError: Unsupported Types: " ++ lt ++ ADD ++ rt), world.empty).
Proof.
  apply (unlike_operands_are_an_error world.sample 1 (IntNode 1) (StringNode "a") ADD
           world.empty (Num (Integer 1)) world.empty (String_ "a") world.empty);
    try reflexivity; discriminate.
Defined.

